(** * supervisord: the supervisor's public interface

  A shallow embedding of [supervisor.go] (the [Supervisor] type and its
  remote-procedure methods) and of [main.go]: the signal handling and
  the restart loop of [runServer], the environment file and the search
  for the configuration file.

  The packages [process], [config], [signals], [types], [util] and
  [faults] that these two files import are part of the repository but
  their sources are not at hand.  What [supervisor.go] needs from them is
  split in two:

  - what depends on the operating system or on files (what a child does
    when it is started, stopped, signalled or written to; what the
    configuration file holds) is an interface, a type class whose
    operations the theorems quantify over;
  - the registry of the process manager and the small list utilities are
    modelled from the specification, each under a comment that says so. *)

From Stdlib Require Import Ascii.
From stdpp Require Import gmap strings list sorting.

(** ** Package [faults] *)

Module faults.

(** Modelled from the spec: the fault kinds of package [faults] (its
    source is absent), by the names the specification gives them; the
    numeric values the RPC layer maps them to are not needed. *)
Inductive Fault :=
| Success
| BAD_NAME
| BAD_SIGNAL
| NOT_RUNNING
| ALREADY_STARTED
| SPAWN_ERROR
| IO_ERROR
| BAD_ARGUMENTS
| FAILED.

#[global] Instance Fault_eq_dec : EqDecision Fault.
Proof. solve_decision. Defined.

End faults.

(** A Go [error] is the message it was built from ([fmt.Errorf]); [None]
  is [nil]. *)
Definition error := string.

(** ** Package [config] *)

Module config.

(** Modelled from the spec: the program descriptor ([config.Entry] in the
    code, whose source is absent), with the fields of the data model that
    the supervisor reads. *)
Record Entry := {
  name : string;
  group : string;
  priority : Z;
  command : string;
  autostart : bool;
  stdout_logfile : string;
  stderr_logfile : string
}.

#[global] Instance Entry_eq_dec : EqDecision Entry.
Proof. solve_decision. Defined.

(** The configuration object.  [Load] parses the configuration file and
    what it finds depends on the file, so the whole of [config.Config] is
    an interface: [ConfigFile] is what is on disk when [Load] runs.
    [Clone] of the program-group mapping is the identity on values.
[GetSupervisord] gives the [GetString] of the [supervisord] section, if
the file has one.
    [checkRequiredResources] is the supervisor's own method, defined in a
    file that is not at hand; it reads the configuration only. *)
Class ConfigPkg := {
  Config : Type;
  ConfigFile : Type;
  ProcessGroup : Type;
  NewConfig : string → Config;
  ProgramGroup : Config → ProcessGroup;
  GetProgramNames : Config → list string;
  GetPrograms : Config → list Entry;
  GetEventListeners : Config → list Entry;
  GetSupervisord : Config → option (string → string → string);
  Load : ConfigFile → Config → Config * list string * option error;
  RemoveProgram : string → Config → Config;
  ProcessGroup_Sub :
    ProcessGroup → ProcessGroup → list string * list string * list string;
  checkRequiredResources : Config → option error
}.

End config.

(** ** Package [process]: one supervised process *)

Module process.

(** The states of the process state machine. *)
Inductive State :=
| Stopped
| Starting
| Running
| Backoff
| Stopping
| Exited
| Fatal
| Unknown.

#[global] Instance State_eq_dec : EqDecision State.
Proof. solve_decision. Defined.

(** Modelled from the spec: the mutable fields of a process (section 3,
    "Process runtime state"). *)
Record Runtime := {
  state : State;
  pid : Z;
  start_time : Z;
  stop_time : Z;
  exit_status : Z;
  retry_count : nat;
  admin_stopped : bool
}.

#[global] Instance Runtime_eq_dec : EqDecision Runtime.
Proof. solve_decision. Defined.

(** A process is its immutable descriptor and its runtime state. *)
Record Process := {
  entry : config.Entry;
  rt : Runtime
}.

#[global] Instance Process_eq_dec : EqDecision Process.
Proof. solve_decision. Defined.

Definition GetName (p : Process) : string := config.name (entry p).
Definition GetGroup (p : Process) : string := config.group (entry p).
Definition GetState (p : Process) : State := state (rt p).
Definition GetPid (p : Process) : Z := pid (rt p).
Definition GetStartTime (p : Process) : Z := start_time (rt p).
Definition GetStopTime (p : Process) : Z := stop_time (rt p).
Definition GetExitstatus (p : Process) : Z := exit_status (rt p).
Definition GetStdoutLogfile (p : Process) : string :=
  config.stdout_logfile (entry p).
Definition GetStderrLogfile (p : Process) : string :=
  config.stderr_logfile (entry p).
Definition isAutoStart (p : Process) : bool := config.autostart (entry p).

(** What a method of [*Process] does to the process depends on the child
    and on the operating system.  Each method is an operation of this
    interface: it maps the runtime state before the call to the runtime
    state when the call returns; the descriptor is read only. *)
Class ProcessPkg := {
  Start : bool → config.Entry → Runtime → Runtime;
  Stop : bool → config.Entry → Runtime → Runtime;
  Signal : Z → bool → config.Entry → Runtime → Runtime;
  SendProcessStdin : string → config.Entry → Runtime → Runtime * option error;
  GetDescription : config.Entry → Runtime → string;
  State_String : State → string;
  State_int : State → Z
}.

(** A new process, as the manager registers it: stopped, no child. *)
Definition NewProcess (e : config.Entry) : Process :=
  {| entry := e;
     rt := {| state := Stopped; pid := 0; start_time := 0; stop_time := 0;
              exit_status := 0; retry_count := 0; admin_stopped := false |} |}.

End process.

(** ** Package [signals] *)

Module signals.

(** [ToSignal] resolves a signal name to the platform's signal number, or
    fails.  The table of names is the platform's, so it is an
    interface. *)
Class SignalsPkg := {
  ToSignal : string → Z + error
}.

End signals.

(** ** Package [util] *)

Module util.

(** Modelled from the spec: [util.Sub] (its source is absent) is the list
    difference, "previous \ new" in section 4.7: the elements of [arr1]
    that are not in [arr2], in the order of [arr1]. *)
Definition Sub (arr1 arr2 : list string) : list string :=
  list_difference arr1 arr2.

End util.

(** ** Package [types] *)

Module types.

Record ProcessInfo := {
  Name : string;
  Group : string;
  Description : string;
  Start : Z;
  Stop : Z;
  Now : Z;
  State : Z;
  Statename : string;
  Spawnerr : string;
  Exitstatus : Z;
  Logfile : string;
  StdoutLogfile : string;
  StderrLogfile : string;
  Pid : Z
}.

#[global] Instance ProcessInfo_eq_dec : EqDecision ProcessInfo.
Proof. solve_decision. Defined.

Record ProcessSignal := {
  ProcessSignal_Name : string;
  ProcessSignal_Signal : string
}.

Record ReloadConfigResult := {
  AddedGroup : list string;
  ChangedGroup : list string;
  RemovedGroup : list string
}.

(** The order of the pair (group, name): groups first, names within a
    group, both by the byte-wise order of Go strings. *)
Definition info_le (a b : ProcessInfo) : Prop :=
  String.le (Group a) (Group b) ∧
  (Group a = Group b → String.le (Name a) (Name b)).

#[global] Instance info_le_dec : RelDecision info_le.
Proof. intros a b. unfold info_le. apply _. Defined.

(** Modelled from the spec: [types.SortProcessInfos] (its source is
    absent) sorts the sequence by (group, name). *)
Definition SortProcessInfos (l : list ProcessInfo) : list ProcessInfo :=
  merge_sort info_le l.

End types.

(** ** Package [process]: the manager *)

Module Manager.
Import process.

(** A method call on a process, as the operating system sees it.  The
    manager keeps the calls made so far: a ghost field, which makes
    "no process was started" and "no signal was delivered" statements
    about the state. *)
Inductive Call :=
| CallStart (key : string) (wait : bool)
| CallStop (key : string) (wait : bool)
| CallSignal (key : string) (sig : Z) (sigChildren : bool)
| CallSendProcessStdin (key : string) (chars : string).

#[global] Instance Call_eq_dec : EqDecision Call.
Proof. solve_decision. Defined.

(** Modelled from the spec: the registry of [process.Manager] (its
    source is absent), a mapping from name to process. *)
Record t := {
  procs : gmap string Process;
  calls : list Call
}.

(** A [*Process] in the hands of a caller: the key under which the
    object is registered, and the object as it was read when the pointer
    was handed out.  Method calls go through the key, so they act on the
    registered object; the descriptor, which never changes, is read from
    the second component. *)
Definition Ref : Type := string * Process.

(** The object a pointer leads to now.  An object that has been taken out
    of the registry is no longer changed by anyone. *)
Definition deref (r : Ref) (m : t) : Process :=
  default r.2 (procs m !! r.1).

(** Iteration order: (priority, name). *)
Definition ref_le (a b : Ref) : Prop :=
  (config.priority (entry a.2) < config.priority (entry b.2))%Z ∨
  (config.priority (entry a.2) = config.priority (entry b.2) ∧
   String.le (GetName a.2) (GetName b.2)).

#[global] Instance ref_le_dec : RelDecision ref_le.
Proof. intros a b. unfold ref_le. apply _. Defined.

Definition getAllProcess (m : t) : list Ref :=
  merge_sort ref_le (map_to_list (procs m)).

(** Modelled from the spec: [find(name)]. *)
Definition Find (name : string) (m : t) : option Ref :=
  (λ p, (name, p)) <$> procs m !! name.

(** The pattern [group:name] or [group:*], cut at its first colon. *)
Fixpoint split_colon (s : string) : option (string * string) :=
  match s with
  | EmptyString => None
  | String a s' =>
      if Ascii.eqb a ":"%char
      then Some (EmptyString, s')
      else (λ gn : string * string, (String a gn.1, gn.2)) <$> split_colon s'
  end.

(** Modelled from the spec: [find_match(pattern)], where the pattern is a
    name, [group:name] or [group:*]. *)
Definition FindMatch (pattern : string) (m : t) : list Ref :=
  match split_colon pattern with
  | Some (groupName, programName) =>
      filter (λ r : Ref, GetGroup r.2 = groupName ∧
                         (programName = "*" ∨ GetName r.2 = programName))
             (getAllProcess m)
  | None => option_list (Find pattern m)
  end.

(** Modelled from the spec: [for_each(fn)], synchronous iteration in
    (priority, name) order.  The callback is a closure: [A] is what it
    captures and updates. *)
Definition ForEachProcess {A} (m : t) (procFunc : Ref → A → A) (a : A) : A :=
  foldl (λ a r, procFunc r a) a (getAllProcess m).

(** The order in which the callbacks of a fan-out complete: any
    rearrangement of the processes they were started for. *)
Record Schedule := {
  completion : list Ref → list Ref;
  completion_perm : ∀ l, completion l ≡ₚ l
}.

(** Modelled from the spec: [async_for_each(fn, completion_channel) → n].
    One worker per process runs the callback and then sends the process
    on the channel.  The callbacks of the supervisor touch only their own
    process, so running them one after the other in completion order
    reaches the same state as any interleaving.  The result is the state
    after the callbacks, what the channel delivers, and [n]. *)
Definition AsyncForEachProcess {A} (sched : Schedule) (m : t)
    (procFunc : Ref → A → A) (a : A) : A * list Ref * nat :=
  let procs := getAllProcess m in
  let done := completion sched procs in
  (foldl (λ a r, procFunc r a) a done, done, length procs).

(** Modelled from the spec: [remove(name)] returns and unregisters; the
    caller stops the process. *)
Definition Remove (name : string) (m : t) : option Ref * t :=
  (Find name m, {| procs := delete name (procs m); calls := calls m |}).

(** Modelled from the spec: [create_process(program)], idempotent by
    name: it returns the existing process if there is one. *)
Definition CreateProcess (supervisorID : string) (e : config.Entry) (m : t)
  : Ref * t :=
  match procs m !! config.name e with
  | Some p => ((config.name e, p), m)
  | None =>
      ((config.name e, NewProcess e),
       {| procs := <[config.name e := NewProcess e]> (procs m);
          calls := calls m |})
  end.

(** NewManager: an empty registry. *)
Definition NewManager : t := {| procs := ∅; calls := [] |}.

(** A method call through a pointer: the registered object changes, the
    call is recorded. *)
Definition call (c : Call) (f : config.Entry → Runtime → Runtime)
    (r : Ref) (m : t) : t :=
  {| procs := alter (λ p, {| entry := entry p; rt := f (entry p) (rt p) |})
                    r.1 (procs m);
     calls := calls m ++ [c] |}.

Section Methods.
Context `{ProcessPkg}.

Definition proc_Start (wait : bool) (r : Ref) (m : t) : t :=
  call (CallStart r.1 wait) (Start wait) r m.

Definition proc_Stop (wait : bool) (r : Ref) (m : t) : t :=
  call (CallStop r.1 wait) (Stop wait) r m.

Definition proc_Signal (sig : Z) (sigChildren : bool) (r : Ref) (m : t) : t :=
  call (CallSignal r.1 sig sigChildren) (Signal sig sigChildren) r m.

(** The write changes the process and returns the error of the write. *)
Definition proc_SendProcessStdin (chars : string) (r : Ref) (m : t)
  : t * option error :=
  (call (CallSendProcessStdin r.1 chars)
        (λ e x, (SendProcessStdin chars e x).1) r m,
   let p := deref r m in (SendProcessStdin chars (entry p) (rt p)).2).

(** Modelled from the spec: [start_autostart_programs()] invokes
    [start(wait=true)] for every process with [autostart]. *)
Definition StartAutoStartPrograms (m : t) : t :=
  ForEachProcess m
    (λ proc m, if isAutoStart proc.2 then proc_Start true proc m else m) m.

(** Modelled from the spec: [stop_all_processes()], a stop over all
    processes that returns after all of them have stopped. *)
Definition StopAllProcesses (m : t) : t :=
  ForEachProcess m (λ proc m, proc_Stop true proc m) m.

End Methods.

End Manager.

(** ** [supervisor.go] *)

(** The result of a function that may end the program with [os.Exit]. *)
Inductive Outcome (A : Type) :=
| Returned (a : A)
| Exit (code : Z).
Arguments Returned {A} a.
Arguments Exit {A} code.

(** StartProcessArgs arguments for starting a process *)
Record StartProcessArgs := {
  StartProcessArgs_Name : string;
  StartProcessArgs_Wait : bool
}.

(** ProcessStdin  process stdin from client *)
Record ProcessStdin := {
  ProcessStdin_Name : string;
  ProcessStdin_Chars : string
}.

(** StateInfo describe the state of supervisor *)
Record StateInfo := {
  Statecode : Z;
  Statename : string
}.

(** RPCTaskResult result of some remote commands *)
Record RPCTaskResult := {
  RPCTaskResult_Name : string;
  RPCTaskResult_Group : string;
  RPCTaskResult_Status : faults.Fault;
  RPCTaskResult_Description : string
}.

#[global] Instance RPCTaskResult_eq_dec : EqDecision RPCTaskResult.
Proof. solve_decision. Defined.

(** The loop that empties the completion channel,
    [for i := 0; i < n; i++ { proc, ok := <-finishedProcCh; if ok { body } }].
    Nobody closes the channel, so a receive delivers a process (and [ok]
    holds) or blocks for ever: [None] is the call that never returns. *)
Fixpoint drain {R} (n : nat) (finishedProcCh : list Manager.Ref)
    (body : Manager.Ref → R → R) (reply : R) : option R :=
  match n with
  | O => Some reply
  | S n' =>
      match finishedProcCh with
      | [] => None
      | proc :: rest => drain n' rest body (body proc reply)
      end
  end.

Section Supervisor.
Context `{config.ConfigPkg, process.ProcessPkg, signals.SignalsPkg}.

(** Supervisor manage all the processes defined in the supervisor
    configuration file.  The XML-RPC server and the logger of the Go
    structure are left out: no method below reads them. *)
Record Supervisor := {
  config : config.Config;
  procMgr : Manager.t;
  restarting : bool
}.

Definition set_config (c : config.Config) (s : Supervisor) : Supervisor :=
  {| config := c; procMgr := procMgr s; restarting := restarting s |}.

Definition set_procMgr (m : Manager.t) (s : Supervisor) : Supervisor :=
  {| config := config s; procMgr := m; restarting := restarting s |}.

Definition set_restarting (b : bool) (s : Supervisor) : Supervisor :=
  {| config := config s; procMgr := procMgr s; restarting := b |}.

(** What a remote procedure hands back: the supervisor after the call,
    the reply structure as the method left it, and the returned error. *)
Definition RPC (R : Type) : Type := Supervisor * R * option error.

(** NewSupervisor create a Supervisor object with supervisor configuration file *)
Definition NewSupervisor (configFile : string) : Supervisor :=
  {| config := config.NewConfig configFile;
     procMgr := Manager.NewManager;
     restarting := false |}.

(** GetSupervisorID get the supervisor identifier from configuration file *)
Definition GetSupervisorID (s : Supervisor) : string :=
  match config.GetSupervisord (config s) with
  | None => "supervisor"
  | Some GetString => GetString "identifier" "supervisor"
  end.

(** GetState get the state of supervisor *)
Definition GetState (s : Supervisor) (reply : StateInfo) : RPC StateInfo :=
  (s, {| Statecode := 1; Statename := "RUNNING" |}, None).

(** Shutdown shutdown the supervisor.  The goroutine it leaves behind ends
    the program a second later with [os.Exit(0)]. *)
Definition Shutdown (s : Supervisor) (reply : bool) : RPC bool :=
  (set_procMgr (Manager.StopAllProcesses (procMgr s)) s, true, None).

(** Restart restart the supervisor *)
Definition Restart (s : Supervisor) (reply : bool) : RPC bool :=
  (set_restarting true s, true, None).

(** IsRestarting check if supervisor is in restarting state *)
Definition IsRestarting (s : Supervisor) : bool := restarting s.

Definition getProcessInfo (now : Z) (proc : process.Process) : types.ProcessInfo :=
  {| types.Name := process.GetName proc;
     types.Group := process.GetGroup proc;
     types.Description := process.GetDescription (process.entry proc) (process.rt proc);
     types.Start := process.GetStartTime proc;
     types.Stop := process.GetStopTime proc;
     types.Now := now;
     types.State := process.State_int (process.GetState proc);
     types.Statename := process.State_String (process.GetState proc);
     types.Spawnerr := "";
     types.Exitstatus := process.GetExitstatus proc;
     types.Logfile := process.GetStdoutLogfile proc;
     types.StdoutLogfile := process.GetStdoutLogfile proc;
     types.StderrLogfile := process.GetStderrLogfile proc;
     types.Pid := process.GetPid proc |}.

(** GetAllProcessInfo get all the program informations managed by supervisor *)
Definition GetAllProcessInfo (now : Z) (s : Supervisor)
    (reply : list types.ProcessInfo) : RPC (list types.ProcessInfo) :=
  let reply := [] in
  let reply :=
    Manager.ForEachProcess (procMgr s)
      (λ proc reply, reply ++ [getProcessInfo now proc.2]) reply in
  (s, types.SortProcessInfos reply, None).

(** StartProcess start the given program *)
Definition StartProcess (s : Supervisor) (args : StartProcessArgs)
    (reply : bool) : RPC bool :=
  let procs := Manager.FindMatch (StartProcessArgs_Name args) (procMgr s) in
  if decide (length procs ≤ 0) then
    (s, reply, Some ("fail to find process " +:+ StartProcessArgs_Name args))
  else
    let m := foldl (λ m proc, Manager.proc_Start (StartProcessArgs_Wait args) proc m)
                   (procMgr s) procs in
    (set_procMgr m s, true, None).

(** The entry both [StartAllProcesses] and [StopAllProcesses] append for a
    process that the channel delivered. *)
Definition taskResult (processInfo : types.ProcessInfo) : RPCTaskResult :=
  {| RPCTaskResult_Name := types.Name processInfo;
     RPCTaskResult_Group := types.Group processInfo;
     RPCTaskResult_Status := faults.Success;
     RPCTaskResult_Description := "OK" |}.

(** StartAllProcesses start all the programs *)
Definition StartAllProcesses (sched : Manager.Schedule) (now : Z)
    (s : Supervisor) (args_Wait : bool) (reply : list RPCTaskResult)
  : option (RPC (list RPCTaskResult)) :=
  let '(m, finishedProcCh, n) :=
    Manager.AsyncForEachProcess sched (procMgr s)
      (λ proc m, Manager.proc_Start args_Wait proc m) (procMgr s) in
  reply ← drain n finishedProcCh
            (λ proc reply,
               let processInfo := getProcessInfo now (Manager.deref proc m) in
               reply ++ [taskResult processInfo]) reply;
  Some (set_procMgr m s, reply, None).

(** StartProcessGroup start all the processes in one group *)
Definition StartProcessGroup (sched : Manager.Schedule) (now : Z)
    (s : Supervisor) (args : StartProcessArgs) (reply : list types.ProcessInfo)
  : option (RPC (list types.ProcessInfo)) :=
  let '(m, finishedProcCh, n) :=
    Manager.AsyncForEachProcess sched (procMgr s)
      (λ proc m,
         if decide (process.GetGroup proc.2 = StartProcessArgs_Name args)
         then Manager.proc_Start (StartProcessArgs_Wait args) proc m
         else m) (procMgr s) in
  reply ← drain n finishedProcCh
            (λ proc reply,
               if decide (process.GetGroup proc.2 = StartProcessArgs_Name args)
               then reply ++ [getProcessInfo now (Manager.deref proc m)]
               else reply) reply;
  Some (set_procMgr m s, reply, None).

(** StopProcess stop given program *)
Definition StopProcess (s : Supervisor) (args : StartProcessArgs)
    (reply : bool) : RPC bool :=
  let procs := Manager.FindMatch (StartProcessArgs_Name args) (procMgr s) in
  if decide (length procs ≤ 0) then
    (s, reply, Some ("fail to find process " +:+ StartProcessArgs_Name args))
  else
    let m := foldl (λ m proc, Manager.proc_Stop (StartProcessArgs_Wait args) proc m)
                   (procMgr s) procs in
    (set_procMgr m s, true, None).

(** StopProcessGroup stop all processes in one group *)
Definition StopProcessGroup (sched : Manager.Schedule) (now : Z)
    (s : Supervisor) (args : StartProcessArgs) (reply : list types.ProcessInfo)
  : option (RPC (list types.ProcessInfo)) :=
  let '(m, finishedProcCh, n) :=
    Manager.AsyncForEachProcess sched (procMgr s)
      (λ proc m,
         if decide (process.GetGroup proc.2 = StartProcessArgs_Name args)
         then Manager.proc_Stop (StartProcessArgs_Wait args) proc m
         else m) (procMgr s) in
  reply ← drain n finishedProcCh
            (λ proc reply,
               if decide (process.GetGroup proc.2 = StartProcessArgs_Name args)
               then reply ++ [getProcessInfo now (Manager.deref proc m)]
               else reply) reply;
  Some (set_procMgr m s, reply, None).

(** StopAllProcesses stop all programs managed by supervisor *)
Definition StopAllProcesses (sched : Manager.Schedule) (now : Z)
    (s : Supervisor) (args_Wait : bool) (reply : list RPCTaskResult)
  : option (RPC (list RPCTaskResult)) :=
  let '(m, finishedProcCh, n) :=
    Manager.AsyncForEachProcess sched (procMgr s)
      (λ proc m, Manager.proc_Stop args_Wait proc m) (procMgr s) in
  reply ← drain n finishedProcCh
            (λ proc reply,
               let processInfo := getProcessInfo now (Manager.deref proc m) in
               reply ++ [taskResult processInfo]) reply;
  Some (set_procMgr m s, reply, None).

(** SignalProcess send a signal to running program *)
Definition SignalProcess (s : Supervisor) (args : types.ProcessSignal)
    (reply : bool) : RPC bool :=
  let procs := Manager.FindMatch (types.ProcessSignal_Name args) (procMgr s) in
  if decide (length procs ≤ 0) then
    (s, false, Some ("No process named " +:+ types.ProcessSignal_Name args))
  else
    let m :=
      match signals.ToSignal (types.ProcessSignal_Signal args) with
      | inl sig => foldl (λ m proc, Manager.proc_Signal sig false proc m)
                         (procMgr s) procs
      | inr err => procMgr s
      end in
    (set_procMgr m s, true, None).

(** SendProcessStdin send data to program through stdin *)
Definition SendProcessStdin (s : Supervisor) (args : ProcessStdin)
    (reply : bool) : RPC bool :=
  match Manager.Find (ProcessStdin_Name args) (procMgr s) with
  | None => (s, reply, Some "NOT_RUNNING")
  | Some proc =>
      if decide (process.GetState proc.2 ≠ process.Running) then
        (s, reply, Some "NOT_RUNNING")
      else
        let '(m, err) :=
          Manager.proc_SendProcessStdin (ProcessStdin_Chars args) proc (procMgr s) in
        match err with
        | None => (set_procMgr m s, true, err)
        | Some _ => (set_procMgr m s, false, err)
        end
  end.

End Supervisor.

Section Reload.
Context `{config.ConfigPkg, process.ProcessPkg, signals.SignalsPkg}.

(** [setSupervisordInfo] opens the supervisor's own log and writes the pid
    file; [startHTTPServer] restarts the XML-RPC listeners.  Neither reads
    or writes the configuration, the registry or a process. *)
Definition setSupervisordInfo (s : Supervisor) : Supervisor := s.

Definition startHTTPServer (s : Supervisor) : Supervisor := s.

Definition startEventListeners (s : Supervisor) : Supervisor :=
  let eventListeners := config.GetEventListeners (config s) in
  foldl (λ s entry,
           let '(proc, m) :=
             Manager.CreateProcess (GetSupervisorID s) entry (procMgr s) in
           set_procMgr (Manager.proc_Start false proc m) s)
        s eventListeners.

Definition createPrograms (prevPrograms : list string) (s : Supervisor)
  : Supervisor :=
  let programs := config.GetProgramNames (config s) in
  let s :=
    foldl (λ s entry,
             set_procMgr
               (Manager.CreateProcess (GetSupervisorID s) entry (procMgr s)).2 s)
          s (config.GetPrograms (config s)) in
  let removedPrograms := util.Sub prevPrograms programs in
  foldl (λ s p, set_procMgr (Manager.Remove p (procMgr s)).2 s)
        s removedPrograms.

Definition startAutoStartPrograms (s : Supervisor) : Supervisor :=
  set_procMgr (Manager.StartAutoStartPrograms (procMgr s)) s.

(** One turn of the loop of [Reload] over the removed programs. *)
Definition removeProgram (s : Supervisor) (removedProg : string) : Supervisor :=
  let s := set_config (config.RemoveProgram removedProg (config s)) s in
  let '(proc, m) := Manager.Remove removedProg (procMgr s) in
  match proc with
  | Some proc => set_procMgr (Manager.proc_Stop false proc m) s
  | None => set_procMgr m s
  end.

(** What [Reload] returns: addedGroup, changedGroup, removedGroup, err. *)
Definition ReloadResult : Type :=
  list string * list string * list string * option error.

(** Reload reload the supervisor configuration *)
Definition Reload (file : config.ConfigFile) (s : Supervisor)
  : Outcome (Supervisor * ReloadResult) :=
  let prevPrograms := config.GetProgramNames (config s) in
  let prevProgGroup := config.ProgramGroup (config s) in
  let '(cfg, loadedPrograms, err) := config.Load file (config s) in
  let s := set_config cfg s in
  match config.checkRequiredResources (config s) with
  | Some checkErr => Exit 1
  | None =>
      let s :=
        match err with
        | None =>
            startAutoStartPrograms
              (startHTTPServer
                 (createPrograms prevPrograms
                    (startEventListeners (setSupervisordInfo s))))
        | Some _ => s
        end in
      let removedPrograms := util.Sub prevPrograms loadedPrograms in
      let s := foldl removeProgram s removedPrograms in
      let '(addedGroup, changedGroup, removedGroup) :=
        config.ProcessGroup_Sub (config.ProgramGroup (config s)) prevProgGroup in
      Returned (s, (addedGroup, changedGroup, removedGroup, err))
  end.

(** ReloadConfig reload the supervisor configuration file *)
Definition ReloadConfig (file : config.ConfigFile) (s : Supervisor)
    (reply : types.ReloadConfigResult)
  : Outcome (RPC types.ReloadConfigResult) :=
  match Reload file s with
  | Exit code => Exit code
  | Returned (s, (addedGroup, changedGroup, removedGroup, err)) =>
      Returned (s,
                {| types.AddedGroup := addedGroup;
                   types.ChangedGroup := changedGroup;
                   types.RemovedGroup := removedGroup |},
                err)
  end.

(** AddProcessGroup add a process group to the supervisor *)
Definition AddProcessGroup (s : Supervisor) (args_Name : string)
    (reply : bool) : RPC bool :=
  (s, false, None).

(** RemoveProcessGroup remove a process group from the supervisor *)
Definition RemoveProcessGroup (s : Supervisor) (args_Name : string)
    (reply : bool) : RPC bool :=
  (s, false, None).

End Reload.

Section MoreMethods.
Context `{config.ConfigPkg, process.ProcessPkg, signals.SignalsPkg}.

(** GetProcessInfo get the process information of one program *)
Definition GetProcessInfo (now : Z) (s : Supervisor) (args_Name : string)
    (reply : types.ProcessInfo) : RPC types.ProcessInfo :=
  match Manager.Find args_Name (procMgr s) with
  | None => (s, reply, Some ("no process named " +:+ args_Name))
  | Some proc => (s, getProcessInfo now proc.2, None)
  end.

(** SignalProcessGroup send signal to all processes in one group.  The
    second loop walks the registry as the first one left it. *)
Definition SignalProcessGroup (now : Z) (s : Supervisor)
    (args : types.ProcessSignal) (reply : list types.ProcessInfo)
  : RPC (list types.ProcessInfo) :=
  let m :=
    Manager.ForEachProcess (procMgr s)
      (λ proc m,
         if decide (process.GetGroup proc.2 = types.ProcessSignal_Name args)
         then match signals.ToSignal (types.ProcessSignal_Signal args) with
              | inl sig => Manager.proc_Signal sig false proc m
              | inr err => m
              end
         else m) (procMgr s) in
  let reply :=
    Manager.ForEachProcess m
      (λ proc reply,
         if decide (process.GetGroup proc.2 = types.ProcessSignal_Name args)
         then reply ++ [getProcessInfo now proc.2]
         else reply) reply in
  (set_procMgr m s, reply, None).

(** SignalAllProcesses send signal to all the processes in the supervisor *)
Definition SignalAllProcesses (now : Z) (s : Supervisor)
    (args : types.ProcessSignal) (reply : list types.ProcessInfo)
  : RPC (list types.ProcessInfo) :=
  let m :=
    Manager.ForEachProcess (procMgr s)
      (λ proc m,
         match signals.ToSignal (types.ProcessSignal_Signal args) with
         | inl sig => Manager.proc_Signal sig false proc m
         | inr err => m
         end) (procMgr s) in
  let reply :=
    Manager.ForEachProcess m
      (λ proc reply, reply ++ [getProcessInfo now proc.2]) reply in
  (set_procMgr m s, reply, None).

End MoreMethods.

(** ** [main.go]: the supervisor's own signals *)

Module Main.

(** The goroutine that [initSignals] starts, by the statement it is at:
    [sig := <-sigs], then [s.procMgr.StopAllProcesses()], then
    [os.Exit(-1)]. *)
Inductive HandlerPc :=
| AtReceive
| AtStopAllProcesses
| AtExit.

(** One call of [initSignals(s)]: the supervisor it was called for (its
    place in the sequence of supervisors [runServer] has created), the
    channel [sigs] of capacity one, and the goroutine. *)
Record Handler := {
  handler_s : nat;
  sigs : option Z;
  pc : HandlerPc
}.

(** [runServer], by where its loop is: about to create the next
    supervisor ([NewSupervisor], [initSignals], [Reload]), or inside
    [WaitForExit]. *)
Inductive MainPc :=
| AtNewSupervisor
| AtWaitForExit.

(** What an observer of the program sees. *)
Inductive Event :=
| EvSignal (sig : Z)
| EvStopAllProcesses (s : nat)
| EvExit (code : Z).

#[global] Instance Event_eq_dec : EqDecision Event.
Proof. solve_decision. Defined.

(** Who moves next.  [runServer] reads the configuration file when it
    creates a supervisor; the operating system delivers a signal; a client
    calls [supervisor.restart]; the goroutine of the i-th [initSignals]
    runs its next statement. *)
Inductive Label :=
| MainStep (configFile : string)
| Deliver (sig : Z)
| RestartRPC
| HandlerStep (i : nat).

Definition SIGINT : Z := 2.
Definition SIGTERM : Z := 15.

Section Program.
Context `{config.ConfigPkg, process.ProcessPkg, signals.SignalsPkg}.
Variable disk : string → config.ConfigFile.

(** The program: every supervisor [runServer] has created (the last one
    is the one in service), the signal handlers installed so far, and the
    exit code once the program has ended. *)
Record System := {
  supervisors : list Supervisor;
  handlers : list Handler;
  main : MainPc;
  exited : option Z;
  events : list Event
}.

Definition init : System :=
  {| supervisors := []; handlers := []; main := AtNewSupervisor;
     exited := None; events := [] |}.

(** [signal.Notify(sigs, syscall.SIGINT, syscall.SIGTERM)]: the runtime
    relays the signal to every channel registered for it, without
    blocking; a channel whose buffer is full misses it. *)
Definition notify (sig : Z) (h : Handler) : Handler :=
  match sigs h with
  | None => {| handler_s := handler_s h; sigs := Some sig; pc := pc h |}
  | Some _ => h
  end.

(** initSignals: a fresh channel, and the goroutine waiting on it. *)
Definition initSignals (s : nat) : Handler :=
  {| handler_s := s; sigs := None; pc := AtReceive |}.

(** One statement of the goroutine of [initSignals]. *)
Definition handler_step (i : nat) (h : Handler) (sys : System) : option System :=
  match pc h with
  | AtReceive =>
      match sigs h with
      | None => None
      | Some sig =>
          Some {| supervisors := supervisors sys;
                  handlers := <[i := {| handler_s := handler_s h; sigs := None;
                                        pc := AtStopAllProcesses |}]> (handlers sys);
                  main := main sys; exited := exited sys; events := events sys |}
      end
  | AtStopAllProcesses =>
      s ← supervisors sys !! handler_s h;
      Some {| supervisors :=
                <[handler_s h :=
                    set_procMgr (Manager.StopAllProcesses (procMgr s)) s]>
                  (supervisors sys);
              handlers := <[i := {| handler_s := handler_s h; sigs := sigs h;
                                    pc := AtExit |}]> (handlers sys);
              main := main sys; exited := exited sys;
              events := events sys ++ [EvStopAllProcesses (handler_s h)] |}
  | AtExit =>
      Some {| supervisors := supervisors sys; handlers := handlers sys;
              main := main sys; exited := Some (-1)%Z;
              events := events sys ++ [EvExit (-1)] |}
  end.

(** One turn of [runServer]: at the top of its loop it creates a
    supervisor, installs the signal handler and reloads (a failed reload
    panics, which ends the program with code 2); inside [WaitForExit] it
    leaves the loop once a restart was asked for, after stopping all
    processes, and sleeps otherwise. *)
Definition main_step (configFile : string) (sys : System) : option System :=
  match main sys with
  | AtNewSupervisor =>
      let s := NewSupervisor configFile in
      let k := length (supervisors sys) in
      let hs := handlers sys ++ [initSignals k] in
      match Reload (disk configFile) s with
      | Returned (s, (_, _, _, None)) =>
          Some {| supervisors := supervisors sys ++ [s]; handlers := hs;
                  main := AtWaitForExit; exited := None; events := events sys |}
      | Returned (s, (_, _, _, Some sErr)) =>
          Some {| supervisors := supervisors sys ++ [s]; handlers := hs;
                  main := AtWaitForExit; exited := Some 2%Z;
                  events := events sys ++ [EvExit 2] |}
      | Exit code =>
          Some {| supervisors := supervisors sys ++ [s]; handlers := hs;
                  main := AtWaitForExit; exited := Some code;
                  events := events sys ++ [EvExit code] |}
      end
  | AtWaitForExit =>
      let k := pred (length (supervisors sys)) in
      s ← supervisors sys !! k;
      if IsRestarting s then
        Some {| supervisors :=
                  <[k := set_procMgr (Manager.StopAllProcesses (procMgr s)) s]>
                    (supervisors sys);
                handlers := handlers sys; main := AtNewSupervisor;
                exited := None;
                events := events sys ++ [EvStopAllProcesses k] |}
      else Some sys
  end.

(** One step of the program.  A program that has ended takes none. *)
Definition step (l : Label) (sys : System) : option System :=
  match exited sys with
  | Some _ => None
  | None =>
      match l with
      | MainStep configFile => main_step configFile sys
      | Deliver sig =>
          if decide (sig = SIGINT ∨ sig = SIGTERM) then
            Some {| supervisors := supervisors sys;
                    handlers := notify sig <$> handlers sys;
                    main := main sys; exited := None;
                    events := events sys ++ [EvSignal sig] |}
          else None
      | RestartRPC =>
          match main sys with
          | AtNewSupervisor => None
          | AtWaitForExit =>
              let k := pred (length (supervisors sys)) in
              s ← supervisors sys !! k;
              Some {| supervisors := <[k := (Restart s false).1.1]> (supervisors sys);
                      handlers := handlers sys; main := main sys;
                      exited := None; events := events sys |}
          end
      | HandlerStep i =>
          h ← handlers sys !! i;
          handler_step i h sys
      end
  end.

(** A run: the steps taken one after the other. *)
Fixpoint run (ls : list Label) (sys : System) : option System :=
  match ls with
  | [] => Some sys
  | l :: ls => sys' ← step l sys; run ls sys'
  end.

(** The supervisor in service and its place. *)
Definition current (sys : System) : nat := pred (length (supervisors sys)).

End Program.

End Main.

(** ** [main.go]: the environment file and the configuration file *)

Module Env.

(** *** What [loadEnvFile] uses of the Go library

    A Go string is a sequence of bytes. *)

(** [asciiSpace] of package [strings]: tab, line feed, vertical tab, form
    feed, carriage return, space. *)
Definition asciiSpace (c : ascii) : bool :=
  bool_decide (c ∈ ["009"%char; "010"%char; "011"%char; "012"%char;
                    "013"%char; " "%char]).

(** [c >= utf8.RuneSelf]: the byte is not an ASCII character. *)
Definition RuneSelf (c : ascii) : bool :=
  bool_decide (128 ≤ N_of_ascii c)%N.

(** [unicode.IsSpace(rune(b))] for a byte [b]: in Latin-1 the spaces are
    the six above, U+0085 and U+00A0. *)
Definition IsSpace (b : ascii) : bool :=
  asciiSpace b || bool_decide (b ∈ ["133"%char; "160"%char]).

(** What a scan for the first, or the last, byte that is no space
    finds: the string from there (up to there), or a byte that is not
    ASCII on the way. *)
Inductive Scan :=
| Found (s : string)
| NonASCII (s : string).

(** The first loop of [strings.TrimSpace]: [s[start:]]. *)
Fixpoint scanLeft (s : string) : Scan :=
  match s with
  | EmptyString => Found EmptyString
  | String c s' =>
      if RuneSelf c then NonASCII s
      else if asciiSpace c then scanLeft s'
      else Found s
  end.

(** The second loop of [strings.TrimSpace], which walks back from the end:
    [s[start:stop]]. *)
Fixpoint scanRight (s : string) : Scan :=
  match s with
  | EmptyString => Found EmptyString
  | String c s' =>
      match scanRight s' with
      | NonASCII t => NonASCII (String c t)
      | Found EmptyString =>
          if RuneSelf c then NonASCII (String c EmptyString)
          else if asciiSpace c then Found EmptyString
          else Found (String c EmptyString)
      | Found t => Found (String c t)
      end
  end.

(** [len(s)], [s[n:]], [s[:n]], [s[i]] and [strings.IndexByte]; [None] is
    the index -1, and an index out of range. *)
Fixpoint drop (n : nat) (s : string) : string :=
  match n, s with
  | S n', String _ s' => drop n' s'
  | _, _ => s
  end.

Fixpoint take (n : nat) (s : string) : string :=
  match n, s with
  | S n', String c s' => String c (take n' s')
  | _, _ => EmptyString
  end.

Fixpoint Index (s : string) (c : ascii) : option nat :=
  match s with
  | EmptyString => None
  | String a s' => if Ascii.eqb a c then Some 0 else S <$> Index s' c
  end.

(** [bufio.Reader.ReadString(delim)] on what is left of the file: the
    data up to and including the delimiter, what is left after it, and
    whether the delimiter was found (the error is nil).  At the end of
    the file the data read so far comes with the error [io.EOF]. *)
Fixpoint ReadString (delim : ascii) (s : string) : string * string * bool :=
  match s with
  | EmptyString => (EmptyString, EmptyString, false)
  | String c s' =>
      if Ascii.eqb c delim then (String c EmptyString, s', true)
      else let '(line, rest, ok) := ReadString delim s' in
           (String c line, rest, ok)
  end.

(** [os.Setenv] on Unix: an empty name, a name with '=' or a NUL byte and
    a value with a NUL byte are refused with [EINVAL]. *)
Definition Setenv (key value : string) (env : gmap string string)
  : gmap string string * option error :=
  if bool_decide (String.length key = 0) then (env, Some "invalid argument")
  else if bool_decide (is_Some (Index key "="%char) ∨
                       is_Some (Index key "000"%char))
  then (env, Some "invalid argument")
  else if bool_decide (is_Some (Index value "000"%char))
  then (env, Some "invalid argument")
  else (<[key := value]> env, None).

Section LoadEnvFile.
(** [strings.TrimFunc(s, unicode.IsSpace)] and
    [strings.TrimRightFunc(s, unicode.IsSpace)], which decode UTF-8:
    [TrimSpace] hands over to them when it meets a byte that is not
    ASCII. *)
Variable TrimFunc_IsSpace : string → string.
Variable TrimRightFunc_IsSpace : string → string.
(** [os.Open] and the read of the whole file: the content, or [None] when
    the file cannot be opened. *)
Variable Open : string → option string.

(** strings.TrimSpace *)
Definition TrimSpace (s : string) : string :=
  match scanLeft s with
  | NonASCII rest => TrimFunc_IsSpace rest
  | Found rest =>
      match scanRight rest with
      | NonASCII t => TrimRightFunc_IsSpace t
      | Found t => t
      end
  end.

(** The body of the loop of [loadEnvFile] on one line, up to the call of
    [os.Setenv]: the name and the value it is called with, if it is. *)
Definition parseLine (line : string) : option (string * string) :=
  let line := TrimSpace line in
  if bool_decide (0 < String.length line) &&
     bool_decide (String.get 0 line = Some "#"%char)
  then None
  else
    let line :=
      if String.prefix "export" line &&
         bool_decide (String.length "export" < String.length line) &&
         from_option IsSpace false (String.get (String.length "export") line)
      then TrimSpace (drop (String.length "export") line)
      else line in
    match Index line "="%char with
    | None => None
    | Some pos =>
        let k := TrimSpace (take pos line) in
        let v := TrimSpace (drop (pos + 1) line) in
        if bool_decide (0 < String.length k) && bool_decide (0 < String.length v)
        then Some (k, v)
        else None
    end.

(** One turn of the loop: the error of [os.Setenv] is dropped. *)
Definition setLine (env : gmap string string) (line : string)
  : gmap string string :=
  match parseLine line with
  | Some (k, v) => (Setenv k v env).1
  | None => env
  end.

(** The loop [for { line, err := reader.ReadString('\n'); if err != nil
    { break }; ... }].  Every turn that does not break reads at least one
    byte, so [fuel] turns are enough when [fuel] exceeds the length of
    what is left. *)
Fixpoint readLoop (fuel : nat) (rest : string) (env : gmap string string)
  : gmap string string :=
  match fuel with
  | O => env
  | S fuel' =>
      let '(line, rest', ok) := ReadString "010"%char rest in
      if ok then readLoop fuel' rest' (setLine env line) else env
  end.

(** loadEnvFile *)
Definition loadEnvFile (EnvFile : string) (env : gmap string string)
  : gmap string string :=
  if bool_decide (String.length EnvFile ≤ 0) then env
  else
    match Open EnvFile with
    | None => env
    | Some content => readLoop (S (String.length content)) content env
    end.

End LoadEnvFile.

Section FindSupervisordConf.
(** [os.Stat(file)] succeeded; [filepath.Abs(file)]. *)
Variable Stat : string → bool.
Variable Abs : string → string + error.

Definition possibleSupervisordConf (Configuration : string) : list string :=
  [Configuration;
   "./supervisord.conf";
   "./etc/supervisord.conf";
   "/etc/supervisord.conf";
   "/etc/supervisor/supervisord.conf";
   "../etc/supervisord.conf";
   "../supervisord.conf"].

(** The loop of [findSupervisordConf] over the candidates. *)
Fixpoint firstConf (files : list string) : string * option error :=
  match files with
  | [] => (EmptyString, Some "fail to find supervisord.conf")
  | file :: files =>
      if Stat file then
        match Abs file with
        | inl absFile => (absFile, None)
        | inr _ => (file, None)
        end
      else firstConf files
  end.

(** findSupervisordConf *)
Definition findSupervisordConf (Configuration : string) : string * option error :=
  firstConf (possibleSupervisordConf Configuration).

(** The configuration file [runServer] starts a supervisor with: the
    option when it is given, what [findSupervisordConf] finds
    otherwise; the error of the search is dropped. *)
Definition runServer_Configuration (Configuration : string) : string :=
  if bool_decide (String.length Configuration ≤ 0)
  then (findSupervisordConf Configuration).1
  else Configuration.

End FindSupervisordConf.

End Env.

(** ** A concrete platform

    Instances of the three interfaces, used to run the model on concrete
    inputs. *)

Module Platform.
Import process.

Definition mkRuntime (st : State) (p : Z) (retries : nat) (stopped : bool)
    (x : Runtime) : Runtime :=
  {| state := st; pid := p; start_time := start_time x;
     stop_time := stop_time x; exit_status := exit_status x;
     retry_count := retries; admin_stopped := stopped |}.

(** Modelled from the spec: [Process.Start] (section 4.3 and 4.4, scenario
    S2).  A process that has a child is left alone.  An empty command
    fails into FATAL at once; with [wait], a command that exits before the
    start deadline ("/bin/false") has used up its retries when the call
    returns and is FATAL, any other is RUNNING; without [wait] the call
    returns with the process STARTING. *)
Definition spec_Start (wait : bool) (e : config.Entry) (x : Runtime) : Runtime :=
  match state x with
  | Starting | Running | Stopping => x
  | _ =>
      if decide (config.command e = "") then mkRuntime Fatal 0 0 false x
      else if wait then
        if decide (config.command e = "/bin/false")
        then mkRuntime Fatal 0 3 false x
        else mkRuntime Running 4242 0 false x
      else mkRuntime Starting 4242 (retry_count x) false x
  end.

(** Modelled from the spec: [Process.Stop] (section 4.5).  The stop is
    recorded as the operator's; a process with a child is STOPPED when a
    waiting call returns, STOPPING when the call does not wait. *)
Definition spec_Stop (wait : bool) (e : config.Entry) (x : Runtime) : Runtime :=
  match state x with
  | Starting | Running | Stopping =>
      if wait then mkRuntime Stopped 0 (retry_count x) true x
      else mkRuntime Stopping (pid x) (retry_count x) true x
  | _ => mkRuntime (state x) (pid x) (retry_count x) true x
  end.

(** A signal and a write to the standard input leave the fields of the
    runtime state as they are; the write fails for a process that has no
    standard input (section 3). *)
Definition spec_Signal (sig : Z) (sigChildren : bool) (e : config.Entry)
    (x : Runtime) : Runtime := x.

Definition spec_SendProcessStdin (chars : string) (e : config.Entry)
    (x : Runtime) : Runtime * option error :=
  match state x with
  | Starting | Running | Stopping => (x, None)
  | _ => (x, Some "NOT_RUNNING")
  end.

Definition spec_State_String (st : State) : string :=
  match st with
  | Stopped => "STOPPED"
  | Starting => "STARTING"
  | Running => "RUNNING"
  | Backoff => "BACKOFF"
  | Stopping => "STOPPING"
  | Exited => "EXITED"
  | Fatal => "FATAL"
  | Unknown => "UNKNOWN"
  end.

Definition spec_State_int (st : State) : Z :=
  match st with
  | Stopped => 0
  | Starting => 10
  | Running => 20
  | Backoff => 30
  | Stopping => 40
  | Exited => 100
  | Fatal => 200
  | Unknown => 1000
  end.

#[global] Instance platform_process : ProcessPkg := {|
  Start := spec_Start;
  Stop := spec_Stop;
  Signal := spec_Signal;
  SendProcessStdin := spec_SendProcessStdin;
  GetDescription := λ e x, spec_State_String (state x);
  State_String := spec_State_String;
  State_int := spec_State_int
|}.

(** Modelled from the spec: the signal names of section 6, with the
    numbers Linux gives them; any other name fails. *)
Definition spec_ToSignal (signalName : string) : Z + error :=
  if decide (signalName = "HUP") then inl 1%Z
  else if decide (signalName = "INT") then inl 2%Z
  else if decide (signalName = "QUIT") then inl 3%Z
  else if decide (signalName = "KILL") then inl 9%Z
  else if decide (signalName = "USR1") then inl 10%Z
  else if decide (signalName = "USR2") then inl 12%Z
  else if decide (signalName = "TERM") then inl 15%Z
  else inr ("unknown signal " +:+ signalName).

#[global] Instance platform_signals : signals.SignalsPkg := {|
  signals.ToSignal := spec_ToSignal
|}.

(** A configuration: the program entries it knows, and the programs of
    the last load, which carry their groups. *)
Record Conf := {
  entries : list config.Entry;
  programGroup : list config.Entry
}.

Definition names (l : list config.Entry) : list string := config.name <$> l.

Definition groups (l : list config.Entry) : list string :=
  remove_dups (config.group <$> l).

Definition members (g : string) (l : list config.Entry) : list config.Entry :=
  filter (λ e, config.group e = g) l.

(** [Load] reads the programs of the file: they replace the entries of
    the same name and join the others, which stay until [RemoveProgram]
    takes them out. *)
Definition conf_Load (file : list config.Entry) (c : Conf)
  : Conf * list string * option error :=
  ({| entries := file ++ filter (λ e, config.name e ∉ names file) (entries c);
      programGroup := file |},
   names file, None).

Definition conf_RemoveProgram (n : string) (c : Conf) : Conf :=
  {| entries := filter (λ e, config.name e ≠ n) (entries c);
     programGroup := filter (λ e, config.name e ≠ n) (programGroup c) |}.

(** The groups that are new, the groups whose programs differ, and the
    groups that are gone (scenario S6). *)
Definition conf_Sub (new prev : list config.Entry)
  : list string * list string * list string :=
  (list_difference (groups new) (groups prev),
   filter (λ g, g ∈ groups prev ∧ members g new ≠ members g prev) (groups new),
   list_difference (groups prev) (groups new)).

#[global] Instance platform_config : config.ConfigPkg := {|
  config.Config := Conf;
  config.ConfigFile := list config.Entry;
  config.ProcessGroup := list config.Entry;
  config.NewConfig := λ _, {| entries := []; programGroup := [] |};
  config.ProgramGroup := programGroup;
  config.GetProgramNames := λ c, names (entries c);
  config.GetPrograms := entries;
  config.GetEventListeners := λ _, [];
  config.GetSupervisord := λ _, None;
  config.Load := conf_Load;
  config.RemoveProgram := conf_RemoveProgram;
  config.ProcessGroup_Sub := conf_Sub;
  config.checkRequiredResources := λ _, None
|}.

(** Another configuration package over the same data: its [Load] keeps
    nothing of what it knew, the entries are those of the file. *)
Definition conf_Load_replacing (file : list config.Entry) (c : Conf)
  : Conf * list string * option error :=
  ({| entries := file; programGroup := file |}, names file, None).

Definition replacing_config : config.ConfigPkg := {|
  config.Config := Conf;
  config.ConfigFile := list config.Entry;
  config.ProcessGroup := list config.Entry;
  config.NewConfig := λ _, {| entries := []; programGroup := [] |};
  config.ProgramGroup := programGroup;
  config.GetProgramNames := λ c, names (entries c);
  config.GetPrograms := entries;
  config.GetEventListeners := λ _, [];
  config.GetSupervisord := λ _, None;
  config.Load := conf_Load_replacing;
  config.RemoveProgram := conf_RemoveProgram;
  config.ProcessGroup_Sub := conf_Sub;
  config.checkRequiredResources := λ _, None
|}.

(** A third one, like the first but on a machine where a resource the
    configuration requires is missing: the check fails. *)
Definition lacking_config : config.ConfigPkg := {|
  config.Config := Conf;
  config.ConfigFile := list config.Entry;
  config.ProcessGroup := list config.Entry;
  config.NewConfig := λ _, {| entries := []; programGroup := [] |};
  config.ProgramGroup := programGroup;
  config.GetProgramNames := λ c, names (entries c);
  config.GetPrograms := entries;
  config.GetEventListeners := λ _, [];
  config.GetSupervisord := λ _, None;
  config.Load := conf_Load;
  config.RemoveProgram := conf_RemoveProgram;
  config.ProcessGroup_Sub := conf_Sub;
  config.checkRequiredResources := λ _, Some "required resource is missing"
|}.

(** Programs and states for the examples. *)
Definition program (n cmd : string) : config.Entry :=
  {| config.name := n; config.group := n; config.priority := 999;
     config.command := cmd; config.autostart := true;
     config.stdout_logfile := "/dev/null"; config.stderr_logfile := "/dev/null" |}.

Definition registry (l : list config.Entry) : Manager.t :=
  {| Manager.procs := list_to_map ((λ e, (config.name e, NewProcess e)) <$> l);
     Manager.calls := [] |}.

Definition supervising (l : list config.Entry) : Supervisor :=
  {| config := {| entries := l; programGroup := l |};
     procMgr := registry l;
     restarting := false |}.

(** Completions in dispatch order, and in the reverse order. *)
Definition in_order : Manager.Schedule :=
  {| Manager.completion := λ l, l;
     Manager.completion_perm := λ l, reflexivity l |}.

Definition reversed : Manager.Schedule :=
  {| Manager.completion := λ l, reverse l;
     Manager.completion_perm := λ l, reverse_Permutation l |}.

End Platform.

(** ** Scenarios *)

Module Scenarios.
Import Platform.

(** Two programs: one that stays up, one that exits at once. *)
Definition s0 : Supervisor :=
  supervising [program "ok" "/bin/sleep 60"; program "bad" "/bin/false"].

Definition state_of (n : string) (s : Supervisor) : option process.State :=
  process.GetState <$> Manager.procs (procMgr s) !! n.

(** Scenario S6: the configuration held a and b, the file holds a
    changed b, and c. *)
Definition s6 : Supervisor :=
  supervising [program "a" "/bin/sleep 60"; program "b" "/bin/sleep 60"].

Definition file6 : @config.ConfigFile platform_config :=
  [program "b" "/bin/sleep 61"; program "c" "/bin/sleep 60"].

(** The same scenario under the configuration package whose [Load]
    keeps nothing. *)
Definition s6_replacing : @Supervisor replacing_config :=
  @Build_Supervisor replacing_config
    {| entries := [program "a" "/bin/sleep 60"; program "b" "/bin/sleep 60"];
       programGroup := [program "a" "/bin/sleep 60";
                        program "b" "/bin/sleep 60"] |}
    (registry [program "a" "/bin/sleep 60"; program "b" "/bin/sleep 60"])
    false.

(** The same scenario where the check of the required resources fails. *)
Definition s6_lacking : @Supervisor lacking_config :=
  @Build_Supervisor lacking_config
    {| entries := [program "a" "/bin/sleep 60"; program "b" "/bin/sleep 60"];
       programGroup := [program "a" "/bin/sleep 60";
                        program "b" "/bin/sleep 60"] |}
    (registry [program "a" "/bin/sleep 60"; program "b" "/bin/sleep 60"])
    false.

(** One program, started automatically. *)
Definition disk (path : string) : @config.ConfigFile platform_config :=
  [program "web" "/bin/sleep 60"].

(** The supervisor starts; SIGINT arrives; the handler runs to its end. *)
Definition signal_only : list Main.Label :=
  [Main.MainStep "supervisord.conf";
   Main.Deliver Main.SIGINT;
   Main.HandlerStep 0; Main.HandlerStep 0; Main.HandlerStep 0].

(** The supervisor starts; a client asks for a restart; [WaitForExit]
    sees it, stops the processes and returns; [runServer] creates the
    second supervisor, which starts "web" again; SIGTERM arrives; the
    handler installed for the first supervisor runs to its end. *)
Definition restart_then_signal : list Main.Label :=
  [Main.MainStep "supervisord.conf";
   Main.RestartRPC;
   Main.MainStep "supervisord.conf";
   Main.MainStep "supervisord.conf";
   Main.Deliver Main.SIGTERM;
   Main.HandlerStep 0; Main.HandlerStep 0; Main.HandlerStep 0].

End Scenarios.

(** ** The vocabulary of the statements *)

(** Two registries hold the same programs under the same keys. *)
Definition same_entries (m m' : Manager.t) : Prop :=
  ∀ k, process.entry <$> Manager.procs m' !! k
       = process.entry <$> Manager.procs m !! k.

(** Every process registered in [m] is registered in [m']. *)
Definition extends (m m' : Manager.t) : Prop :=
  ∀ k, is_Some (Manager.procs m !! k) → is_Some (Manager.procs m' !! k).

(** The entry of a process in the result of [StartAllProcesses] and
    [StopAllProcesses]. *)
Definition okResult (p : process.Process) : RPCTaskResult :=
  {| RPCTaskResult_Name := process.GetName p;
     RPCTaskResult_Group := process.GetGroup p;
     RPCTaskResult_Status := faults.Success;
     RPCTaskResult_Description := "OK" |}.

(** The process a call is made on, and the calls made on one process. *)
Definition call_key (c : Manager.Call) : string :=
  match c with
  | Manager.CallStart k _ => k
  | Manager.CallStop k _ => k
  | Manager.CallSignal k _ _ => k
  | Manager.CallSendProcessStdin k _ => k
  end.

Definition calls_on (n : string) (l : list Manager.Call) : list Manager.Call :=
  filter (λ c, call_key c = n) l.

(** The calls that stop a process, and the calls that start one. *)
Definition is_stop (c : Manager.Call) : Prop :=
  match c with
  | Manager.CallStop _ _ => True
  | _ => False
  end.

#[global] Instance is_stop_dec (c : Manager.Call) : Decision (is_stop c).
Proof. destruct c; simpl; apply _. Defined.

Definition is_start (c : Manager.Call) : Prop :=
  match c with
  | Manager.CallStart _ _ => True
  | _ => False
  end.

(** What one turn of the loop of [Reload] does to the manager: the name
    leaves the registry, and the process that was registered under it is
    told to stop, without waiting. *)
Definition remove_and_stop (m : Manager.t) (n : string) : Manager.t :=
  {| Manager.procs := delete n (Manager.procs m);
     Manager.calls :=
       Manager.calls m
       ++ match Manager.procs m !! n with
          | Some _ => [Manager.CallStop n false]
          | None => []
          end |}.

(** The steps of [Reload] before its loop over the removed programs call
    nothing but [Start]. *)
Definition starts_only (m m' : Manager.t) : Prop :=
  ∃ l, Manager.calls m' = Manager.calls m ++ l ∧ Forall is_start l.

Section Handlers.
Context `{config.ConfigPkg}.

(** What holds of the signal handlers at every moment: a handler belongs
    to a supervisor that exists; a handler that has reached [os.Exit] has
    called [StopAllProcesses] on the manager of its supervisor; and the
    program has ended with code -1 only through such a handler. *)
Definition handlers_ok (sys : Main.System) : Prop :=
  (∀ i h, Main.handlers sys !! i = Some h →
          Main.handler_s h < length (Main.supervisors sys) ∧
          (Main.pc h = Main.AtExit →
           Main.EvStopAllProcesses (Main.handler_s h) ∈ Main.events sys)) ∧
  (Main.exited sys = Some (-1)%Z →
   ∃ i h, Main.handlers sys !! i = Some h ∧ Main.pc h = Main.AtExit).

End Handlers.


Section Serve.
Context `{config.ConfigPkg, process.ProcessPkg, signals.SignalsPkg}.


(** What the answer to a request leaves: the supervisor, and whether the
    procedure has scheduled the end of the program.  [Shutdown] does:
    its goroutine sleeps one second and calls [os.Exit(0)]. *)
Definition after {R} (r : RPC R) : Supervisor * bool := (r.1.1, false).






(** The signal a group operation sends, as a list of calls: one for a
    name that resolves, none otherwise. *)
Definition signal_calls (signalName : string) (r : Manager.Ref)
  : list Manager.Call :=
  match signals.ToSignal signalName with
  | inl sig => [Manager.CallSignal r.1 sig false]
  | inr _ => []
  end.


End Serve.

(** The calls [Reload] may make on a process: a start, or a stop without
    waiting on a program that is gone from the loaded ones. *)
Definition reload_call (prevPrograms loadedPrograms : list string)
    (c : Manager.Call) : Prop :=
  is_start c ∨
  ∃ n, c = Manager.CallStop n false ∧ n ∈ prevPrograms ∧ n ∉ loadedPrograms.

Section Restarts.
Context `{config.ConfigPkg}.

(** What holds of [runServer] at every moment: one signal handler per
    supervisor created so far, the i-th for the i-th supervisor; and
    [StopAllProcesses] was called on the manager of every supervisor but
    the one in service, and on that one too when [WaitForExit] has
    returned. *)
Definition restarts_ok (sys : Main.System) : Prop :=
  length (Main.handlers sys) = length (Main.supervisors sys) ∧
  (∀ i h, Main.handlers sys !! i = Some h → Main.handler_s h = i) ∧
  (∀ k, S k < length (Main.supervisors sys) →
        Main.EvStopAllProcesses k ∈ Main.events sys) ∧
  (Main.main sys = Main.AtNewSupervisor →
   ∀ k, k < length (Main.supervisors sys) →
        Main.EvStopAllProcesses k ∈ Main.events sys).

End Restarts.

(** A string of ASCII spaces. *)
Fixpoint isSpaces (s : string) : Prop :=
  match s with
  | EmptyString => True
  | String c s' => Env.asciiSpace c = true ∧ isSpaces s'
  end.

(** A string without the byte [c]. *)
Definition without (c : ascii) (s : string) : Prop := Env.Index s c = None.

(** The last byte of a string. *)
Fixpoint last_byte (s : string) : option ascii :=
  match s with
  | EmptyString => None
  | String c EmptyString => Some c
  | String _ s' => last_byte s'
  end.

(** An ASCII byte that is no space; a string that is not empty and has
    such a byte at either end. *)
Definition plain (c : ascii) : Prop :=
  Env.RuneSelf c = false ∧ Env.asciiSpace c = false.

Definition tight (s : string) : Prop :=
  (∃ c, String.get 0 s = Some c ∧ plain c) ∧
  (∃ c, last_byte s = Some c ∧ plain c).

(** The line feed, and a file that is empty or ends with one. *)
Definition LF : string := String "010"%char EmptyString.

Definition ends_lines (content : string) : Prop :=
  content = EmptyString ∨ ∃ content', content = content' +:+ LF.

(** The lines of a file that end with a line feed, each with its line
    feed, and what is left after the last of them. *)
Fixpoint lines (s : string) : list string * string :=
  match s with
  | EmptyString => ([], EmptyString)
  | String c s' =>
      let '(ls, rest) := lines s' in
      if Ascii.eqb c "010"%char then (String c EmptyString :: ls, rest)
      else match ls with
           | l :: ls' => (String c l :: ls', rest)
           | [] => ([], String c rest)
           end
  end.

(** A variable as [loadEnvFile] may set it. *)
Definition valid_variable (k v : string) : Prop :=
  k ≠ EmptyString ∧ v ≠ EmptyString ∧
  without "="%char k ∧ without "000"%char k ∧ without "000"%char v.

(** The assignment of the value [v] to the name [k], with the spaces
    [w2] and [w3] around the sign. *)
Definition assignment (k w2 w3 v : string) : string :=
  k +:+ w2 +:+ "=" +:+ w3 +:+ v.

(** * Properties *)

(** ** The registry and the fan-out *)

Lemma getAllProcess_Permutation (m : Manager.t) :
  Manager.getAllProcess m ≡ₚ map_to_list (Manager.procs m).
Proof. unfold Manager.getAllProcess. apply merge_sort_Permutation. Qed.

Lemma getAllProcess_lookup (m : Manager.t) (r : Manager.Ref) :
  r ∈ Manager.getAllProcess m ↔ Manager.procs m !! r.1 = Some r.2.
Proof.
  rewrite getAllProcess_Permutation. destruct r as [k p]; simpl.
  apply elem_of_map_to_list.
Qed.

Lemma getAllProcess_length (m : Manager.t) :
  length (Manager.getAllProcess m) = size (Manager.procs m).
Proof.
  rewrite getAllProcess_Permutation. apply length_map_to_list.
Qed.

(** The loop over the channel ends, with every completion handled, when
    it asks for as many completions as the channel delivers. *)
Lemma drain_all {R} (body : Manager.Ref → R → R) (ch : list Manager.Ref)
    (n : nat) (reply : R) :
  n = length ch →
  drain n ch body reply = Some (foldl (λ a r, body r a) reply ch).
Proof.
  intros ->. revert reply.
  induction ch as [|r ch IH]; intros reply; simpl; [done|].
  apply IH.
Qed.

(** It blocks when it asks for more. *)
Lemma drain_blocks {R} (body : Manager.Ref → R → R) (ch : list Manager.Ref)
    (n : nat) (reply : R) :
  length ch < n → drain n ch body reply = None.
Proof.
  revert n reply.
  induction ch as [|r ch IH]; intros [|n] reply Hlen; simpl in *; try lia; [done|].
  apply IH. lia.
Qed.

Lemma foldl_snoc_fmap {A B} (f : A → B) (l : list A) (acc : list B) :
  foldl (λ acc x, acc ++ [f x]) acc l = acc ++ (f <$> l).
Proof.
  revert acc. induction l as [|x l IH]; intros acc; simpl.
  - by rewrite app_nil_r.
  - rewrite IH. by rewrite <- app_assoc.
Qed.

#[local] Instance same_entries_refl : Reflexive same_entries.
Proof. by intros m k. Qed.

#[local] Instance same_entries_trans : Transitive same_entries.
Proof. intros m1 m2 m3 H12 H23 k. by rewrite H23, H12. Qed.

Lemma call_same_entries c f r m : same_entries m (Manager.call c f r m).
Proof.
  intros k. unfold Manager.call; simpl. rewrite lookup_alter.
  case_decide; [subst|done]. by destruct (Manager.procs m !! r.1).
Qed.

Lemma call_calls c f r m :
  Manager.calls (Manager.call c f r m) = Manager.calls m ++ [c].
Proof. done. Qed.

(** A pointer into the registry still leads to the same program after
    method calls. *)
Lemma deref_entry (m m' : Manager.t) (r : Manager.Ref) :
  same_entries m m' →
  Manager.procs m !! r.1 = Some r.2 →
  process.entry (Manager.deref r m') = process.entry r.2.
Proof.
  intros Hsame Hr. unfold Manager.deref.
  specialize (Hsame r.1). rewrite Hr in Hsame. simpl in Hsame.
  destruct (Manager.procs m' !! r.1) as [p'|]; simpl in *; [congruence|done].
Qed.

(** A loop of method calls: the calls are recorded in order, and the
    programs stay. *)
Section CallLoop.
Variable step : Manager.Ref → Manager.t → Manager.t.
Variable label : Manager.Ref → list Manager.Call.
Hypothesis step_calls :
  ∀ r m, Manager.calls (step r m) = Manager.calls m ++ label r.
Hypothesis step_same : ∀ r m, same_entries m (step r m).

Lemma loop_calls (l : list Manager.Ref) (m : Manager.t) :
  Manager.calls (foldl (λ m r, step r m) m l)
  = Manager.calls m ++ concat (label <$> l).
Proof.
  revert m. induction l as [|r l IH]; intros m; simpl.
  - by rewrite app_nil_r.
  - rewrite IH, step_calls. by rewrite <- app_assoc.
Qed.

Lemma loop_same_entries (l : list Manager.Ref) (m : Manager.t) :
  same_entries m (foldl (λ m r, step r m) m l).
Proof.
  revert m. induction l as [|r l IH]; intros m; simpl; [done|].
  etrans; [apply step_same|apply IH].
Qed.

End CallLoop.

Lemma set_procMgr_same `{config.ConfigPkg} (s : Supervisor) :
  set_procMgr (procMgr s) s = s.
Proof. by destruct s. Qed.

Lemma concat_singletons {A B} (f : A → B) (l : list A) :
  concat ((λ x, [f x]) <$> l) = f <$> l.
Proof. induction l as [|x l IH]; simpl; [done|]. f_equal. exact IH. Qed.

(** ** Single-process operations *)

Section SingleProcess.
Context `{config.ConfigPkg, process.ProcessPkg, signals.SignalsPkg}.

(** C1, as amended.  [StartProcess] calls [Start] with the caller's [wait]
    on every process the name matches, in order, and then reports success
    with no error.  It never reads the state a process has reached: the
    statement holds for every behaviour of [Start], so a process that ends
    FATAL or BACKOFF yields success as well.  It fails, with the error
    "fail to find process", the reply untouched and no process called,
    exactly when the name matches no registered process. *)
Theorem StartProcess_succeeds_whenever_matched
    (s : Supervisor) (args : StartProcessArgs) (reply : bool) :
  let procs := Manager.FindMatch (StartProcessArgs_Name args) (procMgr s) in
  let '(s', reply', err) := StartProcess s args reply in
  match procs with
  | [] =>
      s' = s ∧ reply' = reply ∧
      err = Some ("fail to find process " +:+ StartProcessArgs_Name args)
  | _ :: _ =>
      reply' = true ∧ err = None ∧
      config s' = config s ∧ restarting s' = restarting s ∧
      same_entries (procMgr s) (procMgr s') ∧
      Manager.calls (procMgr s')
      = Manager.calls (procMgr s)
        ++ ((λ r : Manager.Ref, Manager.CallStart r.1 (StartProcessArgs_Wait args))
              <$> procs)
  end.
Proof.
  cbv zeta. unfold StartProcess.
  destruct (Manager.FindMatch _ _) as [|r procs] eqn:Hprocs.
  - rewrite decide_True by (simpl; lia). done.
  - rewrite decide_False by (simpl; lia).
    split_and!; try done.
    + apply (loop_same_entries
               (λ r m, Manager.proc_Start (StartProcessArgs_Wait args) r m)).
      intros r' m. apply call_same_entries.
    + unfold set_procMgr; cbn [procMgr].
      rewrite (loop_calls
                 (λ r m, Manager.proc_Start (StartProcessArgs_Wait args) r m)
                 (λ r, [Manager.CallStart r.1 (StartProcessArgs_Wait args)])).
      * by rewrite concat_singletons.
      * intros r' m. apply call_calls.
Qed.

(** C2, as amended.  When the name matches a registered process and the
    signal name does not resolve, [SignalProcess] sends no signal and
    changes nothing, and it reports success: the reply is true and the
    returned error is nil.  The error of [ToSignal] is dropped. *)
Theorem SignalProcess_unknown_signal_reports_success
    (s : Supervisor) (args : types.ProcessSignal) (reply : bool) (err : error) :
  Manager.FindMatch (types.ProcessSignal_Name args) (procMgr s) ≠ [] →
  signals.ToSignal (types.ProcessSignal_Signal args) = inr err →
  SignalProcess s args reply = (s, true, None).
Proof.
  intros Hmatch Hsig. unfold SignalProcess.
  destruct (Manager.FindMatch _ _) as [|r procs]; [done|].
  rewrite decide_False by (simpl; lia).
  rewrite Hsig. by rewrite set_procMgr_same.
Qed.

(** With a name that resolves, every matched process is sent the signal,
    once, and the call reports success all the same. *)
Lemma SignalProcess_known_signal
    (s : Supervisor) (args : types.ProcessSignal) (reply : bool) (sig : Z) :
  Manager.FindMatch (types.ProcessSignal_Name args) (procMgr s) ≠ [] →
  signals.ToSignal (types.ProcessSignal_Signal args) = inl sig →
  ∃ s', SignalProcess s args reply = (s', true, None) ∧
        Manager.calls (procMgr s')
        = Manager.calls (procMgr s)
          ++ ((λ r : Manager.Ref, Manager.CallSignal r.1 sig false)
                <$> Manager.FindMatch (types.ProcessSignal_Name args) (procMgr s)).
Proof.
  intros Hmatch Hsig. unfold SignalProcess.
  destruct (Manager.FindMatch _ _) as [|r procs] eqn:Hprocs; [done|].
  rewrite decide_False by (simpl; lia).
  rewrite Hsig. eexists; split; [done|]. cbn [procMgr set_procMgr].
  rewrite (loop_calls (λ r m, Manager.proc_Signal sig false r m)
                      (λ r, [Manager.CallSignal r.1 sig false])).
  - by rewrite concat_singletons.
  - intros r' m. apply call_calls.
Qed.

(** C6.  [SendProcessStdin] fails with the error NOT_RUNNING, leaving the
    supervisor (and so every process and the record of calls) and the
    reply as they were, when no process of that name is registered or the
    process is not RUNNING.  Otherwise it writes to that process once,
    returns the error of the write, and the reply is true exactly when the
    write returned no error. *)
Theorem SendProcessStdin_not_running_or_write
    (s : Supervisor) (args : ProcessStdin) (reply : bool) :
  match Manager.procs (procMgr s) !! ProcessStdin_Name args with
  | None => SendProcessStdin s args reply = (s, reply, Some "NOT_RUNNING")
  | Some p =>
      if decide (process.GetState p = process.Running) then
        let w := process.SendProcessStdin (ProcessStdin_Chars args)
                   (process.entry p) (process.rt p) in
        ∃ s' reply',
          SendProcessStdin s args reply = (s', reply', w.2) ∧
          (reply' = true ↔ w.2 = None) ∧
          config s' = config s ∧ restarting s' = restarting s ∧
          Manager.calls (procMgr s')
          = Manager.calls (procMgr s)
            ++ [Manager.CallSendProcessStdin (ProcessStdin_Name args)
                  (ProcessStdin_Chars args)] ∧
          Manager.procs (procMgr s')
          = <[ProcessStdin_Name args :=
                {| process.entry := process.entry p; process.rt := w.1 |}]>
              (Manager.procs (procMgr s))
      else SendProcessStdin s args reply = (s, reply, Some "NOT_RUNNING")
  end.
Proof.
  unfold SendProcessStdin, Manager.Find.
  destruct (Manager.procs (procMgr s) !! ProcessStdin_Name args) as [p|] eqn:Hp;
    simpl; [|done].
  destruct (decide (process.GetState p = process.Running)) as [Hrun|Hrun].
  - rewrite decide_False by (by intros []).
    unfold Manager.proc_SendProcessStdin, Manager.deref; simpl. rewrite Hp; simpl.
    destruct (process.SendProcessStdin _ _ _) as [x' [e|]] eqn:Hw; simpl.
    + eexists _, _. split; [done|]. split_and!; try done.
      cbn [procMgr set_procMgr Manager.procs Manager.call fst snd].
      apply map_eq. intros k. rewrite lookup_alter, lookup_insert.
      case_decide; subst; [|done]. rewrite Hp. simpl. by rewrite Hw.
    + eexists _, _. split; [done|]. split_and!; try done.
      cbn [procMgr set_procMgr Manager.procs Manager.call fst snd].
      apply map_eq. intros k. rewrite lookup_alter, lookup_insert.
      case_decide; subst; [|done]. rewrite Hp. simpl. by rewrite Hw.
  - by rewrite decide_True.
Qed.

(** C8.  [GetState] answers statecode 1 and statename RUNNING and nothing
    else, for every supervisor: one whose restart has been asked for, one
    that is shutting down, any other; and it changes nothing. *)
Theorem GetState_always_running (s : Supervisor) (reply : StateInfo) :
  GetState s reply = (s, {| Statecode := 1; Statename := "RUNNING" |}, None) ∧
  (GetState (Restart s false).1.1 reply).1.2
  = {| Statecode := 1; Statename := "RUNNING" |} ∧
  IsRestarting (Restart s false).1.1 = true ∧
  (GetState (Shutdown s false).1.1 reply).1.2
  = {| Statecode := 1; Statename := "RUNNING" |}.
Proof. split_and!; reflexivity. Qed.

(** C9.  [AddProcessGroup] and [RemoveProcessGroup] answer false with no
    error for every group name, and the supervisor they hand back is the
    one they were given: configuration, registry, every process and the
    record of calls are unchanged. *)
Theorem ProcessGroup_operations_do_nothing
    (s : Supervisor) (name : string) (reply : bool) :
  AddProcessGroup s name reply = (s, false, None) ∧
  RemoveProcessGroup s name reply = (s, false, None).
Proof. split; reflexivity. Qed.

End SingleProcess.

(** ** The order of process information *)

#[local] Instance info_le_total : Total types.info_le.
Proof.
  intros a b. unfold types.info_le.
  destruct (decide (types.Group a = types.Group b)) as [Heq|Hne].
  - rewrite Heq.
    destruct (total String.le (types.Name a) (types.Name b)); [left|right]; done.
  - destruct (total String.le (types.Group a) (types.Group b)); [left|right];
      (split; [done|congruence]).
Qed.

#[local] Instance info_le_trans : Transitive types.info_le.
Proof.
  intros a b c [Hab Hab'] [Hbc Hbc']. split.
  - by etrans.
  - intros Hac.
    assert (types.Group a = types.Group b) as Heq.
    { apply (anti_symm String.le); [done|]. by rewrite Hac. }
    assert (types.Group b = types.Group c) as Heq' by congruence.
    etrans; [by apply Hab'|by apply Hbc'].
Qed.

Lemma foldl_unchanged {A B} (f : A → B → A) (l : list B) (a : A) :
  (∀ x a, x ∈ l → f a x = a) → foldl f a l = a.
Proof.
  induction l as [|x l IH]; intros Hf; simpl; [done|].
  rewrite Hf by left. apply IH. intros y a' Hy. apply Hf. by right.
Qed.

(** ** Operations on all processes and on groups *)

Section Groups.
Context `{config.ConfigPkg, process.ProcessPkg, signals.SignalsPkg}.

(** What the channel of a fan-out delivers: every registered process,
    once. *)
Lemma completion_registered (sched : Manager.Schedule) (m : Manager.t) :
  Manager.completion sched (Manager.getAllProcess m)
  ≡ₚ map_to_list (Manager.procs m).
Proof.
  rewrite Manager.completion_perm. apply getAllProcess_Permutation.
Qed.

Lemma completion_lookup (sched : Manager.Schedule) (m : Manager.t) (r : Manager.Ref) :
  r ∈ Manager.completion sched (Manager.getAllProcess m) →
  Manager.procs m !! r.1 = Some r.2.
Proof.
  rewrite Manager.completion_perm. apply getAllProcess_lookup.
Qed.

Lemma completion_length (sched : Manager.Schedule) (m : Manager.t) :
  length (Manager.getAllProcess m)
  = length (Manager.completion sched (Manager.getAllProcess m)).
Proof. by rewrite Manager.completion_perm. Qed.

(** C5.  [GetAllProcessInfo] leaves the supervisor as it is and returns,
    whatever the reply held before, the information of every registered
    process, one record each, sorted by the pair (group, name): every
    record is below all the records after it. *)
Theorem GetAllProcessInfo_sorted_one_per_process
    (now : Z) (s : Supervisor) (reply : list types.ProcessInfo) :
  ∃ infos,
    GetAllProcessInfo now s reply = (s, infos, None) ∧
    infos ≡ₚ (λ kp : string * process.Process, getProcessInfo now kp.2)
               <$> map_to_list (Manager.procs (procMgr s)) ∧
    length infos = size (Manager.procs (procMgr s)) ∧
    StronglySorted types.info_le infos.
Proof.
  unfold GetAllProcessInfo, Manager.ForEachProcess, types.SortProcessInfos.
  eexists. split; [done|].
  rewrite (foldl_snoc_fmap (λ proc : Manager.Ref, getProcessInfo now proc.2)).
  simpl. split_and!.
  - rewrite merge_sort_Permutation. by rewrite getAllProcess_Permutation.
  - rewrite merge_sort_Permutation, length_fmap. apply getAllProcess_length.
  - apply (StronglySorted_merge_sort _).
Qed.

Lemma taskResult_deref (now : Z) (m m' : Manager.t) (r : Manager.Ref) :
  same_entries m m' →
  Manager.procs m !! r.1 = Some r.2 →
  taskResult (getProcessInfo now (Manager.deref r m')) = okResult r.2.
Proof.
  intros Hsame Hr. pose proof (deref_entry m m' r Hsame Hr) as He.
  unfold taskResult, okResult, getProcessInfo, process.GetName, process.GetGroup.
  simpl. by rewrite He.
Qed.

(** The shape shared by [StartAllProcesses] and [StopAllProcesses]: fan
    out one method call per process, then collect an entry per
    completion. *)
Lemma fan_out_results (sched : Manager.Schedule) (now : Z) (m : Manager.t)
    (step : Manager.Ref → Manager.t → Manager.t) (label : Manager.Ref → Manager.Call)
    (reply : list RPCTaskResult) :
  (∀ r m, Manager.calls (step r m) = Manager.calls m ++ [label r]) →
  (∀ r m, same_entries m (step r m)) →
  let done := Manager.completion sched (Manager.getAllProcess m) in
  let m' := foldl (λ m r, step r m) m done in
  drain (length (Manager.getAllProcess m)) done
    (λ proc reply,
       let processInfo := getProcessInfo now (Manager.deref proc m') in
       reply ++ [taskResult processInfo]) reply
  = Some (reply ++ ((λ r : Manager.Ref, okResult r.2) <$> done)) ∧
  same_entries m m' ∧
  Manager.calls m' = Manager.calls m ++ (label <$> done).
Proof.
  intros Hcalls Hsame done m'.
  assert (same_entries m m') as Hm' by by apply loop_same_entries.
  split_and!; [|done|].
  - rewrite (drain_all _ done) by apply completion_length.
    rewrite (foldl_snoc_fmap
               (λ r, taskResult (getProcessInfo now (Manager.deref r m')))).
    do 2 f_equal. apply list_fmap_ext. intros i r Hr.
    apply (taskResult_deref now m); [done|].
    apply (completion_lookup sched). by eapply list_elem_of_lookup_2.
  - unfold m'. rewrite (loop_calls step (λ r, [label r])) by done.
    by rewrite concat_singletons.
Qed.

(** C4, as amended.  [StartAllProcesses] and [StopAllProcesses] return:
    the loop over the channel asks for as many completions as the fan-out
    delivers.  They append to the reply one entry for each registered
    process, in completion order, after calling [Start], respectively
    [Stop], once on each.  An entry carries the name and the group of its
    process, and the fixed status [Success] with description OK: it says
    nothing of what became of the process. *)
Theorem StartAll_StopAll_one_OK_entry_each
    (sched : Manager.Schedule) (now : Z) (s : Supervisor) (wait : bool)
    (reply : list RPCTaskResult) :
  let m := procMgr s in
  let done := Manager.completion sched (Manager.getAllProcess m) in
  let results := (λ r : Manager.Ref, okResult r.2) <$> done in
  results ≡ₚ (λ kp : string * process.Process, okResult kp.2)
               <$> map_to_list (Manager.procs m) ∧
  length results = size (Manager.procs m) ∧
  (∃ s', StartAllProcesses sched now s wait reply
         = Some (s', reply ++ results, None) ∧
         same_entries m (procMgr s') ∧
         Manager.calls (procMgr s')
         = Manager.calls m ++ ((λ r : Manager.Ref, Manager.CallStart r.1 wait) <$> done)) ∧
  (∃ s', StopAllProcesses sched now s wait reply
         = Some (s', reply ++ results, None) ∧
         same_entries m (procMgr s') ∧
         Manager.calls (procMgr s')
         = Manager.calls m ++ ((λ r : Manager.Ref, Manager.CallStop r.1 wait) <$> done)).
Proof.
  intros m done results. split_and!.
  - unfold results, done. by rewrite completion_registered.
  - unfold results, done. rewrite length_fmap, <- completion_length.
    apply getAllProcess_length.
  - unfold StartAllProcesses, Manager.AsyncForEachProcess. fold m done.
    destruct (fan_out_results sched now m
                (λ r m, Manager.proc_Start wait r m)
                (λ r, Manager.CallStart r.1 wait) reply) as (Hdrain & Hsame & Hcalls).
    { intros r m0. apply call_calls. }
    { intros r m0. apply call_same_entries. }
    fold done in Hdrain, Hsame, Hcalls. cbv zeta in Hdrain.
    rewrite Hdrain. simpl. eexists. split; [done|]. done.
  - unfold StopAllProcesses, Manager.AsyncForEachProcess. fold m done.
    destruct (fan_out_results sched now m
                (λ r m, Manager.proc_Stop wait r m)
                (λ r, Manager.CallStop r.1 wait) reply) as (Hdrain & Hsame & Hcalls).
    { intros r m0. apply call_calls. }
    { intros r m0. apply call_same_entries. }
    fold done in Hdrain, Hsame, Hcalls. cbv zeta in Hdrain.
    rewrite Hdrain. simpl. eexists. split; [done|]. done.
Qed.

(** C10.  When no registered process has group [G], [StartProcessGroup]
    and [StopProcessGroup] return, the result list is empty, the error is
    nil, and the supervisor is as it was: no process was started or
    stopped, no call was made.  The fan-out still ran over every process;
    the test on the group let none through. *)
Theorem ProcessGroup_without_members
    (sched : Manager.Schedule) (now : Z) (s : Supervisor) (G : string)
    (wait : bool) :
  (∀ k p, Manager.procs (procMgr s) !! k = Some p → process.GetGroup p ≠ G) →
  let args := {| StartProcessArgs_Name := G; StartProcessArgs_Wait := wait |} in
  StartProcessGroup sched now s args [] = Some (s, [], None) ∧
  StopProcessGroup sched now s args [] = Some (s, [], None).
Proof.
  intros Hnone args.
  assert (∀ r, r ∈ Manager.completion sched (Manager.getAllProcess (procMgr s)) →
               process.GetGroup r.2 ≠ G) as Hdone.
  { intros r Hr. eapply Hnone. by apply (completion_lookup sched). }
  assert (∀ (A : Type) (f : Manager.Ref → A → A) (r : Manager.Ref) (a : A),
            r ∈ Manager.completion sched (Manager.getAllProcess (procMgr s)) →
            (if decide (process.GetGroup r.2 = G) then f r a else a) = a)
    as Hskip.
  { intros A f r a Hr. by rewrite decide_False by by apply Hdone. }
  split.
  - unfold StartProcessGroup, Manager.AsyncForEachProcess.
    cbn [StartProcessArgs_Name StartProcessArgs_Wait args].
    rewrite foldl_unchanged
      by (intros r a Hr; apply (Hskip _ (Manager.proc_Start wait) r a Hr)).
    rewrite (drain_all _ _ _ _ (completion_length sched (procMgr s))).
    rewrite foldl_unchanged
      by (intros r a Hr;
          apply (Hskip _ (λ r a, a ++ [getProcessInfo now (Manager.deref r (procMgr s))])
                   r a Hr)).
    simpl. by rewrite set_procMgr_same.
  - unfold StopProcessGroup, Manager.AsyncForEachProcess.
    cbn [StartProcessArgs_Name StartProcessArgs_Wait args].
    rewrite foldl_unchanged
      by (intros r a Hr; apply (Hskip _ (Manager.proc_Stop wait) r a Hr)).
    rewrite (drain_all _ _ _ _ (completion_length sched (procMgr s))).
    rewrite foldl_unchanged
      by (intros r a Hr;
          apply (Hskip _ (λ r a, a ++ [getProcessInfo now (Manager.deref r (procMgr s))])
                   r a Hr)).
    simpl. by rewrite set_procMgr_same.
Qed.

End Groups.

(** ** Reload *)

#[local] Instance extends_refl : Reflexive extends.
Proof. by intros m k. Qed.

#[local] Instance extends_trans : Transitive extends.
Proof. intros m1 m2 m3 H12 H23 k Hk. by apply H23, H12. Qed.

Lemma same_entries_extends (m m' : Manager.t) : same_entries m m' → extends m m'.
Proof.
  intros Hsame k [p Hp]. specialize (Hsame k). rewrite Hp in Hsame.
  destruct (Manager.procs m' !! k); [done|discriminate].
Qed.

Lemma CreateProcess_extends (supervisorID : string) (e : config.Entry)
    (m : Manager.t) :
  extends m (Manager.CreateProcess supervisorID e m).2.
Proof.
  unfold Manager.CreateProcess.
  destruct (Manager.procs m !! config.name e) eqn:He; simpl; [done|].
  intros k Hk. simpl. rewrite lookup_insert. by case_decide.
Qed.

Lemma foldl_remove_and_stop_procs (l : list string) (m : Manager.t) (n : string) :
  n ∈ l → Manager.procs (foldl remove_and_stop m l) !! n = None.
Proof.
  revert m. induction l as [|k l IH]; intros m Hn; [by apply elem_of_nil in Hn|].
  simpl. destruct (decide (n ∈ l)) as [Hl|Hl]; [by apply IH|].
  apply elem_of_cons in Hn as [->|?]; [|done].
  clear IH Hl. assert (Manager.procs (remove_and_stop m k) !! k = None) as Hk
    by apply lookup_delete_eq.
  revert Hk. generalize (remove_and_stop m k). clear m.
  induction l as [|j l IH]; intros m Hk; simpl; [done|].
  apply IH. simpl. rewrite lookup_delete. by case_decide.
Qed.

(** Nothing is called on a name that is not registered. *)
Lemma foldl_remove_and_stop_quiet (l : list string) (m : Manager.t) (n : string) :
  Manager.procs m !! n = None →
  calls_on n (Manager.calls (foldl remove_and_stop m l))
  = calls_on n (Manager.calls m).
Proof.
  revert m. induction l as [|k l IH]; intros m Hn; simpl; [done|].
  rewrite IH.
  - unfold calls_on; simpl. rewrite filter_app.
    destruct (Manager.procs m !! k) eqn:Hk; [|by rewrite app_nil_r].
    rewrite filter_cons_False; [by rewrite app_nil_r|].
    simpl. congruence.
  - simpl. rewrite lookup_delete. by case_decide.
Qed.

(** The last call on a registered name that the loop removes is the stop,
    without waiting. *)
Lemma foldl_remove_and_stop_last (l : list string) (m : Manager.t) (n : string) :
  n ∈ l → is_Some (Manager.procs m !! n) →
  last (calls_on n (Manager.calls (foldl remove_and_stop m l)))
  = Some (Manager.CallStop n false).
Proof.
  revert m. induction l as [|k l IH]; intros m Hn [p Hp];
    [by apply elem_of_nil in Hn|].
  simpl. destruct (decide (k = n)) as [->|Hne].
  - rewrite foldl_remove_and_stop_quiet by apply lookup_delete_eq.
    unfold calls_on; simpl. rewrite Hp, filter_app, filter_cons_True by done.
    rewrite filter_nil. by rewrite last_snoc.
  - apply IH.
    + apply elem_of_cons in Hn as [?|?]; [congruence|done].
    + simpl. rewrite lookup_delete_ne by done. by rewrite Hp.
Qed.

Section ReloadFacts.
Context `{config.ConfigPkg, process.ProcessPkg, signals.SignalsPkg}.

Lemma removeProgram_procMgr (s : Supervisor) (n : string) :
  procMgr (removeProgram s n) = remove_and_stop (procMgr s) n.
Proof.
  unfold removeProgram, Manager.Remove, Manager.Find, remove_and_stop.
  cbn [procMgr set_config].
  destruct (Manager.procs (procMgr s) !! n) as [p|] eqn:Hp; simpl.
  - unfold Manager.proc_Stop, Manager.call; simpl. f_equal.
    apply map_eq. intros k. rewrite lookup_alter.
    case_decide; [subst|done]. by rewrite lookup_delete_eq.
  - by rewrite app_nil_r.
Qed.

Lemma foldl_removeProgram_procMgr (l : list string) (s : Supervisor) :
  procMgr (foldl removeProgram s l) = foldl remove_and_stop (procMgr s) l.
Proof.
  revert s. induction l as [|n l IH]; intros s; simpl; [done|].
  by rewrite IH, removeProgram_procMgr.
Qed.

Lemma startEventListeners_extends (s : Supervisor) :
  extends (procMgr s) (procMgr (startEventListeners s)).
Proof.
  unfold startEventListeners.
  generalize (config.GetEventListeners (config s)). intros l.
  revert s. induction l as [|e l IH]; intros s; simpl; [done|].
  etrans; [|apply IH].
  pose proof (CreateProcess_extends (GetSupervisorID s) e (procMgr s)) as Hc.
  destruct (Manager.CreateProcess _ _ _) as [proc m]. simpl in *.
  etrans; [exact Hc|]. apply same_entries_extends, call_same_entries.
Qed.

Lemma startEventListeners_config (s : Supervisor) :
  config (startEventListeners s) = config s.
Proof.
  unfold startEventListeners.
  generalize (config.GetEventListeners (config s)). intros l.
  revert s. induction l as [|e l IH]; intros s; simpl; [done|].
  rewrite IH. by destruct (Manager.CreateProcess _ _ _).
Qed.

(** Where a name stands after the two loops of [createPrograms]. *)
Lemma foldl_Remove_lookup (l : list string) (s : Supervisor) (n : string) :
  Manager.procs
    (procMgr (foldl (λ s p, set_procMgr (Manager.Remove p (procMgr s)).2 s) s l))
  !! n
  = if decide (n ∈ l) then None else Manager.procs (procMgr s) !! n.
Proof.
  revert s. induction l as [|p l IH]; intros s; cbn [foldl].
  - case_decide as Hin; [by apply elem_of_nil in Hin|done].
  - rewrite IH. cbn [procMgr set_procMgr Manager.Remove Manager.procs snd].
    destruct (decide (n ∈ l)) as [Hl|Hl];
      destruct (decide (n ∈ p :: l)) as [Hpl|Hpl]; try done.
    + destruct Hpl. by right.
    + apply elem_of_cons in Hpl as [->|?]; [apply lookup_delete_eq|done].
    + apply lookup_delete_ne. intros ->. apply Hpl. left.
Qed.

Lemma foldl_CreateProcess_extends (l : list config.Entry) (s : Supervisor) :
  extends (procMgr s)
    (procMgr (foldl (λ s entry,
                       set_procMgr
                         (Manager.CreateProcess (GetSupervisorID s) entry
                            (procMgr s)).2 s) s l)).
Proof.
  revert s. induction l as [|e l IH]; intros s; simpl; [done|].
  etrans; [|apply IH]. apply CreateProcess_extends.
Qed.

Lemma createPrograms_keeps (prevPrograms : list string) (s : Supervisor)
    (n : string) :
  n ∈ config.GetProgramNames (config s) →
  is_Some (Manager.procs (procMgr s) !! n) →
  is_Some (Manager.procs (procMgr (createPrograms prevPrograms s)) !! n).
Proof.
  intros Hlisted Hreg. unfold createPrograms, util.Sub.
  rewrite foldl_Remove_lookup.
  rewrite decide_False by (rewrite list_elem_of_difference; tauto).
  by apply foldl_CreateProcess_extends.
Qed.

Lemma createPrograms_removes (prevPrograms : list string) (s : Supervisor)
    (n : string) :
  n ∈ prevPrograms →
  n ∉ config.GetProgramNames (config s) →
  Manager.procs (procMgr (createPrograms prevPrograms s)) !! n = None.
Proof.
  intros Hprev Hlisted. unfold createPrograms, util.Sub.
  rewrite foldl_Remove_lookup.
  by rewrite decide_True by by apply list_elem_of_difference.
Qed.

Lemma startAutoStartPrograms_extends (s : Supervisor) :
  extends (procMgr s) (procMgr (startAutoStartPrograms s)).
Proof.
  unfold startAutoStartPrograms, Manager.StartAutoStartPrograms,
    Manager.ForEachProcess. cbn [procMgr set_procMgr].
  apply same_entries_extends.
  apply (loop_same_entries
           (λ proc m, if process.isAutoStart proc.2
                      then Manager.proc_Start true proc m else m)).
  intros r m. destruct (process.isAutoStart r.2); [|done].
  apply call_same_entries.
Qed.

(** C3.  Take a reload whose check of the required resources passes
    (otherwise [Reload] ends the program).  Then [ReloadConfig] returns
    with the error of [Load], and
    - no program that was in the previous configuration and is not among
      the loaded ones is registered with the manager any more; if it was
      registered before, and [Load], when it succeeds, still lists it
      among the programs of the configuration (it leaves the
      configuration through [RemoveProgram], which [Reload] calls
      itself), then the last call made on its process is a stop, without
      waiting;
    - the reply holds exactly the added, changed and removed groups that
      the difference between the program-group mapping after the reload
      and the one before it gives. *)
Theorem Reload_stops_and_unregisters_removed_programs
    (file : config.ConfigFile) (s : Supervisor)
    (reply : types.ReloadConfigResult) :
  let prevPrograms := config.GetProgramNames (config s) in
  let loaded := config.Load file (config s) in
  config.checkRequiredResources loaded.1.1 = None →
  ∃ s' addedGroup changedGroup removedGroup,
    ReloadConfig file s reply
    = Returned (s',
                {| types.AddedGroup := addedGroup;
                   types.ChangedGroup := changedGroup;
                   types.RemovedGroup := removedGroup |},
                loaded.2) ∧
    (addedGroup, changedGroup, removedGroup)
    = config.ProcessGroup_Sub (config.ProgramGroup (config s'))
                              (config.ProgramGroup (config s)) ∧
    ∀ n, n ∈ prevPrograms → n ∉ loaded.1.2 →
      Manager.procs (procMgr s') !! n = None ∧
      (is_Some (Manager.procs (procMgr s) !! n) →
       (loaded.2 = None → n ∈ config.GetProgramNames loaded.1.1) →
       last (calls_on n (Manager.calls (procMgr s')))
       = Some (Manager.CallStop n false)).
Proof.
  intros prevPrograms loaded Hcheck.
  unfold ReloadConfig, Reload. fold prevPrograms loaded.
  destruct loaded as [[cfg loadedPrograms] err] eqn:Hload. simpl in Hcheck.
  cbn [config set_config]. rewrite Hcheck.
  set (s1 := set_config cfg s).
  set (s2 := match err with
             | None => startAutoStartPrograms
                         (startHTTPServer
                            (createPrograms prevPrograms
                               (startEventListeners (setSupervisordInfo s1))))
             | Some _ => s1
             end).
  set (s3 := foldl removeProgram s2 (util.Sub prevPrograms loadedPrograms)).
  destruct (config.ProcessGroup_Sub _ _) as [[addedGroup changedGroup] removedGroup]
    eqn:Hsub.
  exists s3, addedGroup, changedGroup, removedGroup.
  split; [done|]. split; [done|].
  intros n Hprev Hloaded. simpl in Hloaded.
  assert (n ∈ util.Sub prevPrograms loadedPrograms) as Hn
    by by apply list_elem_of_difference.
  unfold s3. rewrite foldl_removeProgram_procMgr. split.
  - by apply foldl_remove_and_stop_procs.
  - intros Hreg Hlisted. simpl in Hlisted.
    apply foldl_remove_and_stop_last; [done|].
    unfold s2. destruct err; [done|].
    unfold startHTTPServer, setSupervisordInfo.
    apply startAutoStartPrograms_extends, createPrograms_keeps.
    + rewrite startEventListeners_config. by apply Hlisted.
    + by apply (startEventListeners_extends s1).
Qed.

#[local] Instance starts_only_refl : Reflexive starts_only.
Proof. intros m. exists []. by rewrite app_nil_r. Qed.

#[local] Instance starts_only_trans : Transitive starts_only.
Proof.
  intros m1 m2 m3 (l1 & Ha & Hl1) (l2 & Hb & Hl2). exists (l1 ++ l2). split.
  - by rewrite Hb, Ha, app_assoc.
  - by apply Forall_app.
Qed.

Lemma starts_only_no_stop (m m' : Manager.t) (n : string) :
  starts_only m m' →
  filter is_stop (calls_on n (Manager.calls m'))
  = filter is_stop (calls_on n (Manager.calls m)).
Proof.
  intros (l & -> & Hl). unfold calls_on. rewrite !filter_app.
  assert (filter is_stop (filter (λ c, call_key c = n) l) = []) as ->;
    [|by rewrite app_nil_r].
  induction Hl as [|c l Hc Hl IH]; [done|].
  rewrite filter_cons. case_decide; [|done].
  rewrite filter_cons_False; [done|]. destruct c; simpl in *; tauto.
Qed.

Lemma startEventListeners_starts_only (s : Supervisor) :
  starts_only (procMgr s) (procMgr (startEventListeners s)).
Proof.
  unfold startEventListeners.
  generalize (config.GetEventListeners (config s)). intros l.
  revert s. induction l as [|e l IH]; intros s; simpl; [done|].
  etrans; [|apply IH].
  assert (Manager.calls (Manager.CreateProcess (GetSupervisorID s) e (procMgr s)).2
          = Manager.calls (procMgr s)) as Hc.
  { unfold Manager.CreateProcess. by destruct (Manager.procs _ !! _). }
  destruct (Manager.CreateProcess _ _ _) as [proc m]. simpl in *.
  exists [Manager.CallStart proc.1 false]. split; [by rewrite <- Hc|].
  by repeat constructor.
Qed.

Lemma createPrograms_calls (prevPrograms : list string) (s : Supervisor) :
  Manager.calls (procMgr (createPrograms prevPrograms s))
  = Manager.calls (procMgr s).
Proof.
  unfold createPrograms.
  generalize (util.Sub prevPrograms (config.GetProgramNames (config s))).
  intros removedPrograms.
  transitivity (Manager.calls
    (procMgr (foldl (λ s entry,
                       set_procMgr
                         (Manager.CreateProcess (GetSupervisorID s) entry
                            (procMgr s)).2 s)
                    s (config.GetPrograms (config s))))).
  - generalize (foldl (λ s entry,
                       set_procMgr
                         (Manager.CreateProcess (GetSupervisorID s) entry
                            (procMgr s)).2 s)
                    s (config.GetPrograms (config s))).
    clear s. intros s. revert s.
    induction removedPrograms as [|p l IH]; intros s; simpl; [done|].
    by rewrite IH.
  - generalize (config.GetPrograms (config s)). intros l.
    revert s. induction l as [|e l IH]; intros s; simpl; [done|].
    rewrite IH. cbn [procMgr set_procMgr].
    unfold Manager.CreateProcess. by destruct (Manager.procs _ !! _).
Qed.

Lemma startAutoStartPrograms_same_entries (s : Supervisor) :
  same_entries (procMgr s) (procMgr (startAutoStartPrograms s)).
Proof.
  unfold startAutoStartPrograms, Manager.StartAutoStartPrograms,
    Manager.ForEachProcess. cbn [procMgr set_procMgr].
  apply (loop_same_entries
           (λ proc m, if process.isAutoStart proc.2
                      then Manager.proc_Start true proc m else m)).
  intros r m. destruct (process.isAutoStart r.2); [|done].
  apply call_same_entries.
Qed.

Lemma startAutoStartPrograms_starts_only (s : Supervisor) :
  starts_only (procMgr s) (procMgr (startAutoStartPrograms s)).
Proof.
  unfold startAutoStartPrograms, Manager.StartAutoStartPrograms,
    Manager.ForEachProcess. cbn [procMgr set_procMgr].
  generalize (Manager.getAllProcess (procMgr s)). intros l.
  generalize (procMgr s). clear s. intros m. revert m.
  induction l as [|r l IH]; intros m; simpl; [done|].
  etrans; [|apply IH]. destruct (process.isAutoStart r.2); [|done].
  exists [Manager.CallStart r.1 true]. split; [done|]. by repeat constructor.
Qed.

(** The other side of C3.  When the check of the required resources
    passes, and [Load] succeeds and no longer lists a program of the
    previous configuration, [createPrograms] takes the process out of
    the registry, the loop of [Reload] finds nothing to stop, and
    [Reload] returns with the process unregistered and without having
    made a single stop call on it. *)
Theorem Reload_unlisted_program_is_unregistered_without_stop
    (file : config.ConfigFile) (s : Supervisor) (n : string) :
  let prevPrograms := config.GetProgramNames (config s) in
  let loaded := config.Load file (config s) in
  config.checkRequiredResources loaded.1.1 = None →
  loaded.2 = None →
  n ∈ prevPrograms →
  n ∉ config.GetProgramNames loaded.1.1 →
  ∃ s' result,
    Reload file s = Returned (s', result) ∧
    Manager.procs (procMgr s') !! n = None ∧
    filter is_stop (calls_on n (Manager.calls (procMgr s')))
    = filter is_stop (calls_on n (Manager.calls (procMgr s))).
Proof.
  intros prevPrograms loaded Hcheck Herr Hprev Hlisted.
  unfold Reload. fold prevPrograms loaded.
  destruct loaded as [[cfg loadedPrograms] err] eqn:Hload.
  simpl in Hcheck, Herr, Hlisted. subst err.
  cbn [config set_config]. rewrite Hcheck.
  set (s1 := set_config cfg s).
  set (s2 := startAutoStartPrograms
               (startHTTPServer
                  (createPrograms prevPrograms
                     (startEventListeners (setSupervisordInfo s1))))).
  set (s3 := foldl removeProgram s2 (util.Sub prevPrograms loadedPrograms)).
  destruct (config.ProcessGroup_Sub _ _) as [[addedGroup changedGroup] removedGroup].
  eexists s3, _. split; [done|].
  assert (Manager.procs (procMgr s2) !! n = None) as Hgone.
  { unfold s2, startHTTPServer, setSupervisordInfo.
    pose proof (startAutoStartPrograms_same_entries
                  (createPrograms prevPrograms (startEventListeners s1)) n) as Hsame.
    rewrite createPrograms_removes in Hsame;
      [|done|by rewrite startEventListeners_config].
    by destruct (Manager.procs _ !! n). }
  assert (starts_only (procMgr s) (procMgr s2)) as Hstarts.
  { unfold s2, startHTTPServer, setSupervisordInfo.
    etrans; [apply (startEventListeners_starts_only s1)|].
    etrans; [|apply startAutoStartPrograms_starts_only].
    destruct (startEventListeners_starts_only s1) as (l & Hl & _).
    exists []. rewrite app_nil_r. by rewrite createPrograms_calls. }
  unfold s3. rewrite foldl_removeProgram_procMgr. split.
  - clear Hstarts. revert Hgone. generalize (procMgr s2).
    generalize (util.Sub prevPrograms loadedPrograms). intros l.
    induction l as [|k l IH]; intros m Hm; simpl; [done|].
    apply IH. simpl. rewrite lookup_delete. by case_decide.
  - rewrite foldl_remove_and_stop_quiet by done.
    by apply starts_only_no_stop.
Qed.


End ReloadFacts.

(** ** The operations on the concrete platform *)

Module Examples.
Import Platform Scenarios.

(** C1, counterexample.  The program "bad" exits before its start
    deadline; [StartProcess] with [wait] leaves it FATAL, not RUNNING, and
    returns success with no error: no SPAWN_ERROR. *)
Lemma StartProcess_success_for_fatal_process :
  let r := StartProcess s0 {| StartProcessArgs_Name := "bad";
                              StartProcessArgs_Wait := true |} false in
  state_of "bad" s0 = Some process.Stopped ∧
  state_of "bad" r.1.1 = Some process.Fatal ∧
  state_of "bad" r.1.1 ≠ Some process.Running ∧
  r.1.2 = true ∧ r.2 = None.
Proof. vm_compute. split_and!; done. Qed.

(** C2, counterexample.  "BOGUS" names no signal; [SignalProcess] on the
    registered process "ok" returns success with no error: no
    BAD_SIGNAL. *)
Lemma SignalProcess_success_for_unknown_signal :
  let args := {| types.ProcessSignal_Name := "ok";
                 types.ProcessSignal_Signal := "BOGUS" |} in
  let r := SignalProcess s0 args false in
  Manager.FindMatch "ok" (procMgr s0) ≠ [] ∧
  signals.ToSignal "BOGUS" = inr "unknown signal BOGUS" ∧
  r.1.2 = true ∧ r.2 = None ∧ r.1.1 = s0.
Proof. vm_compute. split_and!; done. Qed.

Lemma SignalProcess_unknown_signal_witness :
  SignalProcess s0 {| types.ProcessSignal_Name := "ok";
                      types.ProcessSignal_Signal := "BOGUS" |} false
  = (s0, true, None).
Proof.
  apply (SignalProcess_unknown_signal_reports_success s0 _ false
           "unknown signal BOGUS").
  - vm_compute. discriminate.
  - reflexivity.
Defined.

(** C4, counterexample.  After [StartAllProcesses] with [wait], "ok" is
    RUNNING and "bad" is FATAL, and the two entries of the result differ
    in name and group only: both say [Success], "OK". *)
Lemma StartAllProcesses_same_entry_for_fatal_and_running :
  ∃ s',
    StartAllProcesses in_order 0 s0 true []
    = Some (s',
            [ {| RPCTaskResult_Name := "bad"; RPCTaskResult_Group := "bad";
                 RPCTaskResult_Status := faults.Success;
                 RPCTaskResult_Description := "OK" |};
              {| RPCTaskResult_Name := "ok"; RPCTaskResult_Group := "ok";
                 RPCTaskResult_Status := faults.Success;
                 RPCTaskResult_Description := "OK" |} ],
            None) ∧
    state_of "bad" s' = Some process.Fatal ∧
    state_of "ok" s' = Some process.Running.
Proof. eexists. vm_compute. split_and!; reflexivity. Qed.

(** C10, on the two programs: no process has group "nogroup". *)
Lemma ProcessGroup_without_members_witness :
  let args := {| StartProcessArgs_Name := "nogroup";
                 StartProcessArgs_Wait := true |} in
  StartProcessGroup reversed 0 s0 args [] = Some (s0, [], None) ∧
  StopProcessGroup reversed 0 s0 args [] = Some (s0, [], None).
Proof.
  apply (ProcessGroup_without_members reversed 0 s0 "nogroup" true).
  intros k p Hp.
  apply (elem_of_map_to_list (Manager.procs (procMgr s0))) in Hp.
  revert Hp. vm_compute.
  intros [Hp|[Hp|Hp]%elem_of_cons]%elem_of_cons.
  - injection Hp as -> ->. discriminate.
  - injection Hp as -> ->. discriminate.
  - by apply elem_of_nil in Hp.
Defined.

Lemma Reload_scenario_S6_witness :
  ∃ s' addedGroup changedGroup removedGroup,
    ReloadConfig file6 s6 {| types.AddedGroup := []; types.ChangedGroup := [];
                             types.RemovedGroup := [] |}
    = Returned (s',
                {| types.AddedGroup := addedGroup;
                   types.ChangedGroup := changedGroup;
                   types.RemovedGroup := removedGroup |},
                None) ∧
    (addedGroup, changedGroup, removedGroup)
    = config.ProcessGroup_Sub (config.ProgramGroup (config s'))
                              (config.ProgramGroup (config s6)) ∧
    ∀ n, n ∈ config.GetProgramNames (config s6) →
         n ∉ (config.Load file6 (config s6)).1.2 →
      Manager.procs (procMgr s') !! n = None ∧
      (is_Some (Manager.procs (procMgr s6) !! n) →
       ((config.Load file6 (config s6)).2 = None →
        n ∈ config.GetProgramNames (config.Load file6 (config s6)).1.1) →
       last (calls_on n (Manager.calls (procMgr s')))
       = Some (Manager.CallStop n false)).
Proof.
  apply (Reload_stops_and_unregisters_removed_programs file6 s6).
  reflexivity.
Defined.

(** What the reload of scenario S6 returns: c added, b changed, a
    removed; a is gone from the registry and was stopped. *)
Example Reload_scenario_S6 :
  match ReloadConfig file6 s6 {| types.AddedGroup := []; types.ChangedGroup := [];
                                 types.RemovedGroup := [] |} with
  | Returned (s', reply, err) =>
      reply = {| types.AddedGroup := ["c"]; types.ChangedGroup := ["b"];
                 types.RemovedGroup := ["a"] |} ∧
      err = None ∧
      state_of "a" s' = None ∧
      Manager.calls (procMgr s')
      = [Manager.CallStart "a" true; Manager.CallStart "b" true;
         Manager.CallStart "c" true; Manager.CallStop "a" false]
  | Exit _ => False
  end.
Proof. vm_compute. split_and!; reflexivity. Qed.

(** Under the configuration package whose [Load] keeps nothing, the
    reload of scenario S6 drops the process of a from the registry and
    never stops it. *)
Lemma Reload_unlisted_program_witness :
  ∃ s' result,
    @Reload replacing_config platform_process file6 s6_replacing
    = Returned (s', result) ∧
    Manager.procs (procMgr s') !! "a" = None ∧
    filter is_stop (calls_on "a" (Manager.calls (procMgr s')))
    = filter is_stop (calls_on "a" (Manager.calls (procMgr s6_replacing))).
Proof.
  apply (@Reload_unlisted_program_is_unregistered_without_stop
           replacing_config platform_process file6 s6_replacing "a").
  - reflexivity.
  - reflexivity.
  - vm_compute. left.
  - vm_compute. intros Hin.
    repeat (apply elem_of_cons in Hin as [Hin|Hin]; [discriminate|]).
    by apply elem_of_nil in Hin.
Defined.

End Examples.

(** ** The supervisor's own signals *)

Section Signals.
Context `{config.ConfigPkg, process.ProcessPkg, signals.SignalsPkg}.
Variable disk : string → config.ConfigFile.

Lemma run_snoc (ls : list Main.Label) (l : Main.Label) (sys : Main.System) :
  Main.run disk (ls ++ [l]) sys = Main.run disk ls sys ≫= Main.step disk l.
Proof.
  revert sys. induction ls as [|l' ls IH]; intros sys; simpl.
  - by destruct (Main.step disk l sys).
  - destruct (Main.step disk l' sys) as [sys'|]; simpl; [apply IH|done].
Qed.

(** [Reload] ends the program with code 1 only. *)
Lemma Reload_exit_code (file : config.ConfigFile) (s : Supervisor) (code : Z) :
  Reload file s = Exit code → code = 1%Z.
Proof.
  unfold Reload. destruct (config.Load file (config s)) as [[cfg loaded] err].
  destruct (config.checkRequiredResources _); [by intros [= <-]|].
  by destruct (config.ProcessGroup_Sub _ _) as [[? ?] ?].
Qed.

Lemma handlers_ok_init : handlers_ok Main.init.
Proof. split; [intros i h Hh; simpl in Hh; by rewrite lookup_nil in Hh|done]. Qed.

Lemma handlers_ok_new (sys : Main.System) (s : Supervisor) (code : option Z)
    (es : list Main.Event) :
  handlers_ok sys → code ≠ Some (-1)%Z →
  handlers_ok
    {| Main.supervisors := Main.supervisors sys ++ [s];
       Main.handlers := Main.handlers sys
                        ++ [Main.initSignals (length (Main.supervisors sys))];
       Main.main := Main.AtWaitForExit; Main.exited := code;
       Main.events := Main.events sys ++ es |}.
Proof.
  intros [Hh _] Hcode. split; [|done]. simpl.
  intros i h Hi. rewrite length_app; simpl.
  apply lookup_app_Some in Hi as [Hi|[_ Hi]].
  - destruct (Hh i h Hi) as [Hlt Hexit]. split; [lia|].
    intros Hpc. apply elem_of_app. left. by apply Hexit.
  - apply list_lookup_singleton_Some in Hi as [_ <-]. simpl. split; [lia|done].
Qed.

Ltac sys_simpl :=
  cbn [Main.supervisors Main.handlers Main.main Main.exited Main.events
       Main.handler_s Main.pc Main.sigs Main.initSignals] in *.

Lemma handlers_ok_step (l : Main.Label) (sys sys' : Main.System) :
  handlers_ok sys → Main.step disk l sys = Some sys' → handlers_ok sys'.
Proof.
  intros Hok Hstep. pose proof Hok as [Hh Hx]. unfold Main.step in Hstep.
  destruct (Main.exited sys) as [|] eqn:Hexited; [done|].
  destruct l as [configFile|sig| |i].
  - unfold Main.main_step in Hstep. destruct (Main.main sys).
    + destruct (Reload _ _) as [[s [[[a c] r] [sErr|]]]|code] eqn:HR;
        injection Hstep as <-.
      * apply (handlers_ok_new sys s (Some 2%Z) [Main.EvExit 2]); done.
      * pose proof (handlers_ok_new sys s None [] Hok) as Hnew.
        rewrite app_nil_r in Hnew. by apply Hnew.
      * apply (handlers_ok_new sys _ (Some code) [Main.EvExit code]); [done|].
        apply Reload_exit_code in HR as ->. done.
    + destruct (Main.supervisors sys !! _) as [s|] eqn:Hs; [|done].
      simpl in Hstep. destruct (IsRestarting s); injection Hstep as <-; [|done].
      split; [|done]. sys_simpl. intros i h Hi. rewrite length_insert.
      destruct (Hh i h Hi) as [Hlt Hexit]. split; [done|].
      intros Hpc. apply elem_of_app. left. by apply Hexit.
  - case_decide; [|done]. injection Hstep as <-. split; [|done]. simpl.
    intros i h Hi. rewrite list_lookup_fmap in Hi.
    destruct (Main.handlers sys !! i) as [h0|] eqn:Hi0; [|done].
    injection Hi as <-. destruct (Hh i h0 Hi0) as [Hlt Hexit].
    assert (Main.handler_s (Main.notify sig h0) = Main.handler_s h0 ∧
            Main.pc (Main.notify sig h0) = Main.pc h0) as [-> ->]
      by (unfold Main.notify; by destruct (Main.sigs h0)).
    split; [done|]. intros Hpc. apply elem_of_app. left. by apply Hexit.
  - destruct (Main.main sys); [done|].
    destruct (Main.supervisors sys !! _) as [s|] eqn:Hs; [|done].
    injection Hstep as <-. split; [|done]. sys_simpl. intros i h Hi.
    rewrite length_insert. by apply (Hh i).
  - destruct (Main.handlers sys !! i) as [h|] eqn:Hi; [|done]. simpl in Hstep.
    destruct (Hh i h Hi) as [Hlt Hexit].
    unfold Main.handler_step in Hstep. destruct (Main.pc h) eqn:Hpc.
    + destruct (Main.sigs h) as [sig|]; [|done]. injection Hstep as <-.
      split; [|by rewrite Hexited]. sys_simpl. intros j h' Hj.
      destruct (decide (i = j)) as [->|Hne].
      * rewrite list_lookup_insert_eq in Hj by by eapply lookup_lt_Some.
        injection Hj as <-. sys_simpl. split; [done|done].
      * rewrite list_lookup_insert_ne in Hj by done. by apply (Hh j).
    + destruct (Main.supervisors sys !! Main.handler_s h) as [s|]; [|done].
      injection Hstep as <-. split; [|by rewrite Hexited]. sys_simpl.
      intros j h' Hj. rewrite length_insert.
      destruct (decide (i = j)) as [->|Hne].
      * rewrite list_lookup_insert_eq in Hj by by eapply lookup_lt_Some.
        injection Hj as <-. sys_simpl. split; [done|].
        intros _. apply elem_of_app. right. left.
      * rewrite list_lookup_insert_ne in Hj by done.
        destruct (Hh j h' Hj) as [Hlt' Hexit']. split; [done|].
        intros Hpc'. apply elem_of_app. left. by apply Hexit'.
    + injection Hstep as <-. split; sys_simpl.
      * intros j h' Hj. destruct (Hh j h' Hj) as [Hlt' Hexit'].
        split; [done|]. intros Hpc'. apply elem_of_app. left. by apply Hexit'.
      * intros _. by exists i, h.
Qed.

Lemma handlers_ok_run (ls : list Main.Label) (sys : Main.System) :
  Main.run disk ls Main.init = Some sys → handlers_ok sys.
Proof.
  revert sys. induction ls as [|l ls IH] using rev_ind; intros sys Hrun.
  - injection Hrun as <-. apply handlers_ok_init.
  - rewrite run_snoc in Hrun.
    destruct (Main.run disk ls Main.init) as [sys0|]; [|done].
    simpl in Hrun. by eapply handlers_ok_step; [apply IH|].
Qed.

End Signals.

Module SignalExamples.
Import Platform Scenarios.

(** C7, the failing run.  After a restart two handlers wait for the
    signal, the one of the first supervisor and the one of the supervisor
    in service.  SIGTERM wakes both.  The first one stops the processes of
    the first manager, which [WaitForExit] had stopped already, and ends
    the program with code -1: "web", the process of the supervisor in
    service, is RUNNING, [StopAllProcesses] was never called on its
    manager, and the only call ever made on it is its start. *)
Theorem signal_after_restart_exits_with_processes_running :
  ∃ sys s,
    Main.run disk restart_then_signal Main.init = Some sys ∧
    Main.exited sys = Some (-1)%Z ∧
    Main.events sys
    = [Main.EvStopAllProcesses 0; Main.EvSignal Main.SIGTERM;
       Main.EvStopAllProcesses 0; Main.EvExit (-1)] ∧
    Main.current sys = 1 ∧
    (Main.EvStopAllProcesses (Main.current sys) ∉ Main.events sys) ∧
    Main.supervisors sys !! (Main.current sys) = Some s ∧
    state_of "web" s = Some process.Running ∧
    Manager.calls (procMgr s) = [Manager.CallStart "web" true].
Proof.
  eexists _, _. split; [vm_compute; reflexivity|].
  vm_compute. split_and!; try reflexivity.
  intros Hin.
  repeat (apply elem_of_cons in Hin as [Hin|Hin]; [discriminate|]).
  by apply elem_of_nil in Hin.
Qed.

End SignalExamples.

(** ** The other operations on processes *)

Lemma concat_fmap_if {A B} (P : A → Prop) `{∀ x, Decision (P x)}
    (f : A → B) (l : list A) :
  concat ((λ x, if decide (P x) then [f x] else []) <$> l) = f <$> filter P l.
Proof.
  induction l as [|x l IH]; [done|].
  rewrite fmap_cons, filter_cons. cbn [concat].
  destruct (decide (P x)); rewrite IH; done.
Qed.

Lemma foldl_snoc_filter {A B} (P : A → Prop) `{∀ x, Decision (P x)}
    (f : A → B) (l : list A) (acc : list B) :
  foldl (λ acc x, if decide (P x) then acc ++ [f x] else acc) acc l
  = acc ++ (f <$> filter P l).
Proof.
  revert acc. induction l as [|x l IH]; intros acc; cbn [foldl].
  - by rewrite app_nil_r.
  - rewrite IH, filter_cons. destruct (decide (P x)); [|done].
    by rewrite fmap_cons, <- app_assoc.
Qed.

Lemma same_entries_dom (m m' : Manager.t) :
  same_entries m m' →
  dom (Manager.procs m') = dom (Manager.procs m).
Proof.
  intros Hsame. apply set_eq. intros k. rewrite !elem_of_dom.
  specialize (Hsame k).
  destruct (Manager.procs m' !! k), (Manager.procs m !! k);
    simpl in Hsame; try discriminate; split; intros [? ?]; eauto.
Qed.

Section MoreOperations.
Context `{config.ConfigPkg, process.ProcessPkg, signals.SignalsPkg}.

(** [StopProcess] is [StartProcess] with [Stop] for [Start].  It calls
    [Stop] with the caller's [wait] on every process the name matches and
    reports success with no error, whatever the state of the process: it
    never answers NOT_RUNNING.  With a name that matches nothing it
    fails, the reply untouched and no process called. *)
Theorem StopProcess_succeeds_whenever_matched
    (s : Supervisor) (args : StartProcessArgs) (reply : bool) :
  let procs := Manager.FindMatch (StartProcessArgs_Name args) (procMgr s) in
  let '(s', reply', err) := StopProcess s args reply in
  match procs with
  | [] =>
      s' = s ∧ reply' = reply ∧
      err = Some ("fail to find process " +:+ StartProcessArgs_Name args)
  | _ :: _ =>
      reply' = true ∧ err = None ∧
      config s' = config s ∧ restarting s' = restarting s ∧
      same_entries (procMgr s) (procMgr s') ∧
      Manager.calls (procMgr s')
      = Manager.calls (procMgr s)
        ++ ((λ r : Manager.Ref, Manager.CallStop r.1 (StartProcessArgs_Wait args))
              <$> procs)
  end.
Proof.
  cbv zeta. unfold StopProcess.
  destruct (Manager.FindMatch _ _) as [|r procs] eqn:Hprocs.
  - rewrite decide_True by (simpl; lia). done.
  - rewrite decide_False by (simpl; lia).
    split_and!; try done.
    + apply (loop_same_entries
               (λ r m, Manager.proc_Stop (StartProcessArgs_Wait args) r m)).
      intros r' m. apply call_same_entries.
    + unfold set_procMgr; cbn [procMgr].
      rewrite (loop_calls
                 (λ r m, Manager.proc_Stop (StartProcessArgs_Wait args) r m)
                 (λ r, [Manager.CallStop r.1 (StartProcessArgs_Wait args)])).
      * by rewrite concat_singletons.
      * intros r' m. apply call_calls.
Qed.

Lemma signal_step_calls (signalName : string) (r : Manager.Ref) (m : Manager.t) :
  Manager.calls
    match signals.ToSignal signalName with
    | inl sig => Manager.proc_Signal sig false r m
    | inr _ => m
    end
  = Manager.calls m ++ signal_calls signalName r.
Proof.
  unfold signal_calls. destruct (signals.ToSignal signalName); [done|].
  by rewrite app_nil_r.
Qed.

Lemma signal_step_same (signalName : string) (r : Manager.Ref) (m : Manager.t) :
  same_entries m
    match signals.ToSignal signalName with
    | inl sig => Manager.proc_Signal sig false r m
    | inr _ => m
    end.
Proof.
  destruct (signals.ToSignal signalName); [apply call_same_entries|done].
Qed.

(** [SignalProcessGroup] never fails, not for a group without processes
    and not for a signal name that does not resolve.  It sends the signal
    to the processes of the group, once each, in the order of the
    registry, and to no other process; with a name that does not resolve
    it sends nothing and the supervisor stays as it was.  It appends to
    the reply the information of the processes of the group, as they are
    after the signals. *)
Theorem SignalProcessGroup_signals_the_group_and_never_fails
    (now : Z) (s : Supervisor) (args : types.ProcessSignal)
    (reply : list types.ProcessInfo) :
  let G := types.ProcessSignal_Name args in
  let member := λ r : Manager.Ref, process.GetGroup r.2 = G in
  ∃ s' infos,
    SignalProcessGroup now s args reply = (s', reply ++ infos, None) ∧
    config s' = config s ∧ restarting s' = restarting s ∧
    same_entries (procMgr s) (procMgr s') ∧
    Manager.calls (procMgr s')
    = Manager.calls (procMgr s)
      ++ match signals.ToSignal (types.ProcessSignal_Signal args) with
         | inl sig => (λ r : Manager.Ref, Manager.CallSignal r.1 sig false)
                        <$> filter member (Manager.getAllProcess (procMgr s))
         | inr _ => []
         end ∧
    infos ≡ₚ (λ r : Manager.Ref, getProcessInfo now r.2)
               <$> filter member (map_to_list (Manager.procs (procMgr s'))) ∧
    (∀ err, signals.ToSignal (types.ProcessSignal_Signal args) = inr err →
            s' = s).
Proof.
  intros G member. unfold SignalProcessGroup, Manager.ForEachProcess.
  fold G.
  set (step := λ (proc : Manager.Ref) (m : Manager.t),
         if decide (process.GetGroup proc.2 = G)
         then match signals.ToSignal (types.ProcessSignal_Signal args) with
              | inl sig => Manager.proc_Signal sig false proc m
              | inr _ => m
              end
         else m).
  set (label := λ r : Manager.Ref,
         if decide (member r)
         then signal_calls (types.ProcessSignal_Signal args) r else []).
  assert (∀ r m, Manager.calls (step r m) = Manager.calls m ++ label r) as Hcalls.
  { intros r m. unfold step, label, member.
    destruct (decide (process.GetGroup r.2 = G)); [apply signal_step_calls|].
    by rewrite app_nil_r. }
  assert (∀ r m, same_entries m (step r m)) as Hsame.
  { intros r m. unfold step.
    destruct (decide (process.GetGroup r.2 = G)); [apply signal_step_same|done]. }
  set (m' := foldl (λ a r, step r a) (procMgr s)
               (Manager.getAllProcess (procMgr s))).
  rewrite (foldl_snoc_filter member (λ r : Manager.Ref, getProcessInfo now r.2)).
  eexists _, _. split; [done|]. cbn [config restarting procMgr set_procMgr].
  split_and!; try done.
  - by apply loop_same_entries.
  - unfold m'. rewrite (loop_calls step label Hcalls). f_equal.
    unfold label, signal_calls.
    destruct (signals.ToSignal (types.ProcessSignal_Signal args)) as [sig|err].
    + apply (concat_fmap_if member).
    + induction (Manager.getAllProcess (procMgr s)) as [|r l IH]; [done|].
      rewrite fmap_cons. cbn [concat]. rewrite IH. by destruct (decide (member r)).
  - by rewrite getAllProcess_Permutation.
  - intros err Herr.
    assert (m' = procMgr s) as Hm.
    { unfold m'. apply foldl_unchanged. intros r m _. unfold step.
      rewrite Herr. by destruct (decide _). }
    change (set_procMgr m' s = s). rewrite Hm. apply set_procMgr_same.
Qed.

(** [SignalAllProcesses] never fails either.  It sends the signal to
    every registered process, once each, in the order of the registry;
    with a name that does not resolve it sends nothing and the supervisor
    stays as it was.  It appends to the reply the information of every
    registered process, as it is after the signals, in the order of the
    registry (which is not the sorted order of [GetAllProcessInfo]). *)
Theorem SignalAllProcesses_signals_everyone_and_never_fails
    (now : Z) (s : Supervisor) (args : types.ProcessSignal)
    (reply : list types.ProcessInfo) :
  ∃ s' infos,
    SignalAllProcesses now s args reply = (s', reply ++ infos, None) ∧
    config s' = config s ∧ restarting s' = restarting s ∧
    same_entries (procMgr s) (procMgr s') ∧
    Manager.calls (procMgr s')
    = Manager.calls (procMgr s)
      ++ match signals.ToSignal (types.ProcessSignal_Signal args) with
         | inl sig => (λ r : Manager.Ref, Manager.CallSignal r.1 sig false)
                        <$> Manager.getAllProcess (procMgr s)
         | inr _ => []
         end ∧
    infos = (λ r : Manager.Ref, getProcessInfo now r.2)
              <$> Manager.getAllProcess (procMgr s') ∧
    length infos = size (Manager.procs (procMgr s)) ∧
    (∀ err, signals.ToSignal (types.ProcessSignal_Signal args) = inr err →
            s' = s).
Proof.
  unfold SignalAllProcesses, Manager.ForEachProcess.
  set (step := λ (proc : Manager.Ref) (m : Manager.t),
         match signals.ToSignal (types.ProcessSignal_Signal args) with
         | inl sig => Manager.proc_Signal sig false proc m
         | inr _ => m
         end).
  set (m' := foldl (λ a r, step r a) (procMgr s)
               (Manager.getAllProcess (procMgr s))).
  assert (same_entries (procMgr s) m') as Hsame.
  { apply (loop_same_entries step). intros r m. apply signal_step_same. }
  rewrite (foldl_snoc_fmap (λ r : Manager.Ref, getProcessInfo now r.2)).
  eexists _, _. split; [done|]. cbn [config restarting procMgr set_procMgr].
  split_and!; try done.
  - unfold m'.
    rewrite (loop_calls step (signal_calls (types.ProcessSignal_Signal args)))
      by (intros r m; apply signal_step_calls).
    f_equal. unfold signal_calls.
    destruct (signals.ToSignal (types.ProcessSignal_Signal args)) as [sig|err].
    + apply concat_singletons.
    + induction (Manager.getAllProcess (procMgr s)) as [|r l IH]; [done|].
      rewrite fmap_cons. cbn [concat]. by rewrite IH.
  - rewrite length_fmap, getAllProcess_length.
    change (size (Manager.procs m') = size (Manager.procs (procMgr s))).
    by rewrite <- !size_dom, (same_entries_dom _ _ Hsame).
  - intros err Herr.
    assert (m' = procMgr s) as Hm.
    { unfold m'. apply foldl_unchanged. intros r m _. unfold step.
      by rewrite Herr. }
    change (set_procMgr m' s = s). rewrite Hm. apply set_procMgr_same.
Qed.

(** [GetProcessInfo] and [GetAllProcessInfo] agree.  For a registered
    name [GetProcessInfo] returns, with no error, a record that is in the
    list of [GetAllProcessInfo]; for any other name it fails and leaves
    the reply as it was; and every record of the list is what
    [GetProcessInfo] returns for some name.  Neither changes the
    supervisor. *)
Theorem GetProcessInfo_agrees_with_GetAllProcessInfo
    (now : Z) (s : Supervisor) (name : string) (reply : types.ProcessInfo) :
  let all := (GetAllProcessInfo now s []).1.2 in
  match Manager.procs (procMgr s) !! name with
  | Some p =>
      GetProcessInfo now s name reply = (s, getProcessInfo now p, None) ∧
      getProcessInfo now p ∈ all
  | None =>
      GetProcessInfo now s name reply
      = (s, reply, Some ("no process named " +:+ name))
  end ∧
  (∀ info, info ∈ all →
           ∃ k, GetProcessInfo now s k reply = (s, info, None)).
Proof.
  intros all.
  assert (∀ info, info ∈ all ↔
                  ∃ k p, Manager.procs (procMgr s) !! k = Some p ∧
                         info = getProcessInfo now p) as Hall.
  { intros info. unfold all, GetAllProcessInfo, Manager.ForEachProcess,
      types.SortProcessInfos. cbn [fst snd].
    rewrite (foldl_snoc_fmap (λ proc : Manager.Ref, getProcessInfo now proc.2)).
    rewrite app_nil_l, merge_sort_Permutation, getAllProcess_Permutation.
    rewrite list_elem_of_fmap. split.
    - intros ([k p] & -> & Hkp). apply elem_of_map_to_list in Hkp. eauto.
    - intros (k & p & Hkp & ->). exists (k, p). split; [done|].
      by apply elem_of_map_to_list. }
  unfold GetProcessInfo, Manager.Find. split.
  - destruct (Manager.procs (procMgr s) !! name) as [p|] eqn:Hp; simpl; [|done].
    split; [done|]. apply Hall. eauto.
  - intros info (k & p & Hkp & ->)%Hall. exists k. by rewrite Hkp.
Qed.

End MoreOperations.

(** ** Sessions of requests *)

Section Sessions.
Context `{config.ConfigPkg, process.ProcessPkg, signals.SignalsPkg}.





End Sessions.

(** ** What a reload calls *)

Lemma foldl_remove_and_stop_calls (l : list string) (m : Manager.t) :
  ∃ stops,
    Manager.calls (foldl remove_and_stop m l) = Manager.calls m ++ stops ∧
    Forall (λ c, ∃ n, c = Manager.CallStop n false ∧ n ∈ l) stops.
Proof.
  revert m. induction l as [|k l IH]; intros m; cbn [foldl].
  - exists []. by rewrite app_nil_r.
  - destruct (IH (remove_and_stop m k)) as (stops & -> & Hstops).
    cbn [remove_and_stop Manager.calls].
    exists (match Manager.procs m !! k with
            | Some _ => [Manager.CallStop k false]
            | None => []
            end ++ stops).
    split; [by rewrite app_assoc|].
    apply Forall_app. split.
    + destruct (Manager.procs m !! k); [|done].
      constructor; [|done]. exists k. split; [done|left].
    + eapply Forall_impl; [exact Hstops|].
      intros c (n & -> & Hn). exists n. split; [done|by right].
Qed.

#[local] Instance starts_only_reflexive : Reflexive starts_only.
Proof. intros m. exists []. by rewrite app_nil_r. Qed.

#[local] Instance starts_only_transitive : Transitive starts_only.
Proof.
  intros m1 m2 m3 (l1 & Ha & Hl1) (l2 & Hb & Hl2). exists (l1 ++ l2). split.
  - by rewrite Hb, Ha, app_assoc.
  - by apply Forall_app.
Qed.

Section ReloadCalls.
Context `{config.ConfigPkg, process.ProcessPkg, signals.SignalsPkg}.

Lemma prepare_starts_only (prevPrograms : list string) (s : Supervisor) :
  starts_only (procMgr s)
    (procMgr (startAutoStartPrograms
                (startHTTPServer
                   (createPrograms prevPrograms
                      (startEventListeners (setSupervisordInfo s)))))).
Proof.
  unfold startHTTPServer, setSupervisordInfo.
  etrans; [apply (startEventListeners_starts_only s)|].
  etrans; [|apply startAutoStartPrograms_starts_only].
  exists []. rewrite app_nil_r. by rewrite createPrograms_calls.
Qed.

(** The calls of a reload.  When the check of the required resources
    passes, every call [Reload] makes on a process is a start, or a stop
    without waiting on a program of the previous configuration that is
    not among the loaded ones.  So a reload never stops, signals or
    writes to a program that is still loaded, whether its descriptor has
    changed or not. *)
Theorem Reload_starts_and_stops_removed_programs_only
    (file : config.ConfigFile) (s : Supervisor) :
  let prevPrograms := config.GetProgramNames (config s) in
  let loaded := config.Load file (config s) in
  config.checkRequiredResources loaded.1.1 = None →
  ∃ s' result made,
    Reload file s = Returned (s', result) ∧
    Manager.calls (procMgr s') = Manager.calls (procMgr s) ++ made ∧
    Forall (reload_call prevPrograms loaded.1.2) made ∧
    ∀ n, n ∈ loaded.1.2 →
         filter is_stop (calls_on n (Manager.calls (procMgr s')))
         = filter is_stop (calls_on n (Manager.calls (procMgr s))).
Proof.
  intros prevPrograms loaded Hcheck.
  unfold Reload. fold prevPrograms loaded.
  destruct loaded as [[cfg loadedPrograms] err] eqn:Hload. simpl in Hcheck.
  cbn [config set_config fst snd]. rewrite Hcheck.
  set (s1 := set_config cfg s).
  set (s2 := match err with
             | None => startAutoStartPrograms
                         (startHTTPServer
                            (createPrograms prevPrograms
                               (startEventListeners (setSupervisordInfo s1))))
             | Some _ => s1
             end).
  set (s3 := foldl removeProgram s2 (util.Sub prevPrograms loadedPrograms)).
  destruct (config.ProcessGroup_Sub _ _) as [[addedGroup changedGroup] removedGroup].
  assert (starts_only (procMgr s) (procMgr s2)) as (starts & Hstarts & Hall).
  { unfold s2. destruct err; [done|]. apply (prepare_starts_only _ s1). }
  destruct (foldl_remove_and_stop_calls
              (util.Sub prevPrograms loadedPrograms) (procMgr s2))
    as (stops & Hstops & Hremoved).
  assert (Forall (reload_call prevPrograms loadedPrograms) (starts ++ stops))
    as Hmade.
  { apply Forall_app. split.
    - eapply Forall_impl; [exact Hall|]. intros c Hc. by left.
    - eapply Forall_impl; [exact Hremoved|].
      intros c (n & -> & Hn). right. exists n. split; [done|].
      by apply list_elem_of_difference in Hn. }
  assert (Manager.calls (procMgr s3)
          = Manager.calls (procMgr s) ++ starts ++ stops) as Hcalls.
  { unfold s3. rewrite foldl_removeProgram_procMgr, Hstops, Hstarts.
    by rewrite app_assoc. }
  exists s3, (addedGroup, changedGroup, removedGroup, err), (starts ++ stops).
  split_and!; try done.
  intros n Hn. rewrite Hcalls. revert Hmade. generalize (starts ++ stops).
  intros made Hmade. unfold calls_on. rewrite !filter_app.
  assert (filter is_stop (filter (λ c, call_key c = n) made) = [])
    as ->; [|by rewrite app_nil_r].
  induction Hmade as [|c made Hc Hmade IH]; [done|].
  rewrite filter_cons. case_decide as Hkey; [|done].
  rewrite filter_cons_False; [done|].
  destruct Hc as [Hc|(k & -> & Hk & Hnot)].
  - destruct c; simpl in *; tauto.
  - simpl in Hkey. congruence.
Qed.

End ReloadCalls.

(** ** Restarts *)

Ltac system_simpl :=
  cbn [Main.supervisors Main.handlers Main.main Main.exited Main.events
       Main.handler_s Main.pc Main.sigs Main.initSignals] in *.

Section RestartFacts.
Context `{config.ConfigPkg, process.ProcessPkg, signals.SignalsPkg}.
Variable disk : string → config.ConfigFile.

Lemma restarts_ok_init : restarts_ok Main.init.
Proof.
  split_and!; simpl; intros; try done; lia.
Qed.

Lemma restarts_ok_new (sys : Main.System) (s : Supervisor) (code : option Z)
    (es : list Main.Event) :
  restarts_ok sys → Main.main sys = Main.AtNewSupervisor →
  restarts_ok
    {| Main.supervisors := Main.supervisors sys ++ [s];
       Main.handlers := Main.handlers sys
                        ++ [Main.initSignals (length (Main.supervisors sys))];
       Main.main := Main.AtWaitForExit; Main.exited := code;
       Main.events := Main.events sys ++ es |}.
Proof.
  intros (Hlen & Hnth & Hprev & Hall) Hmain. split_and!; system_simpl.
  - rewrite !length_app. simpl. lia.
  - intros i h Hi. apply lookup_app_Some in Hi as [Hi|[Hge Hi]].
    + by apply Hnth.
    + apply list_lookup_singleton_Some in Hi as [Hi <-]. simpl. lia.
  - intros k Hk. rewrite length_app in Hk. simpl in Hk.
    apply elem_of_app. left. apply (Hall Hmain). lia.
  - done.
Qed.

Lemma restarts_ok_step (l : Main.Label) (sys sys' : Main.System) :
  restarts_ok sys → Main.step disk l sys = Some sys' → restarts_ok sys'.
Proof.
  intros Hok Hstep. pose proof Hok as (Hlen & Hnth & Hprev & Hall).
  unfold Main.step in Hstep.
  destruct (Main.exited sys) as [|] eqn:Hexited; [done|].
  destruct l as [configFile|sig| |i].
  - unfold Main.main_step in Hstep. destruct (Main.main sys) eqn:Hmain.
    + destruct (Reload _ _) as [[s [[[a c] r] [sErr|]]]|code] eqn:HR;
        injection Hstep as <-.
      * by apply (restarts_ok_new sys s (Some 2%Z) [Main.EvExit 2]).
      * pose proof (restarts_ok_new sys s None [] Hok Hmain) as Hnew.
        by rewrite app_nil_r in Hnew.
      * by apply (restarts_ok_new sys _ (Some code) [Main.EvExit code]).
    + destruct (Main.supervisors sys !! _) as [s|] eqn:Hs; [|done].
      simpl in Hstep. destruct (IsRestarting s); injection Hstep as <-;
        [|exact Hok].
      apply lookup_lt_Some in Hs.
      split_and!; system_simpl; rewrite ?length_insert; try done.
      * intros k Hk. apply elem_of_app. left. by apply Hprev.
      * intros _ k Hk.
        destruct (decide (S k < length (Main.supervisors sys))) as [Hlt|Hge].
        -- apply elem_of_app. left. by apply Hprev.
        -- apply elem_of_app. right.
           replace (Init.Nat.pred (length (Main.supervisors sys))) with k by lia.
           left.
  - case_decide; [|done]. injection Hstep as <-.
    split_and!; system_simpl.
    + by rewrite length_fmap.
    + intros i h Hi. rewrite list_lookup_fmap in Hi.
      destruct (Main.handlers sys !! i) as [h0|] eqn:Hi0; [|done].
      injection Hi as <-. rewrite <- (Hnth i h0 Hi0).
      unfold Main.notify. by destruct (Main.sigs h0).
    + intros k Hk. apply elem_of_app. left. by apply Hprev.
    + intros Hmain k Hk. apply elem_of_app. left. by apply Hall.
  - destruct (Main.main sys) eqn:Hmain; [done|].
    destruct (Main.supervisors sys !! _) as [s|] eqn:Hs; [|done].
    injection Hstep as <-.
    split_and!; system_simpl; rewrite ?length_insert; done.
  - destruct (Main.handlers sys !! i) as [h|] eqn:Hi; [|done]. simpl in Hstep.
    pose proof (lookup_lt_Some _ _ _ Hi) as Hlt.
    unfold Main.handler_step in Hstep. destruct (Main.pc h) eqn:Hpc.
    + destruct (Main.sigs h) as [sig|]; [|done]. injection Hstep as <-.
      split_and!; system_simpl; rewrite ?length_insert; try done.
      intros j h' Hj. destruct (decide (i = j)) as [->|Hne].
      * rewrite list_lookup_insert_eq in Hj by done.
        injection Hj as <-. system_simpl. by apply Hnth.
      * rewrite list_lookup_insert_ne in Hj by done. by apply Hnth.
    + destruct (Main.supervisors sys !! Main.handler_s h) as [s|]; [|done].
      injection Hstep as <-.
      split_and!; system_simpl; rewrite ?length_insert; try done.
      * intros j h' Hj. destruct (decide (i = j)) as [->|Hne].
        -- rewrite list_lookup_insert_eq in Hj by done.
           injection Hj as <-. system_simpl. by apply Hnth.
        -- rewrite list_lookup_insert_ne in Hj by done. by apply Hnth.
      * intros k Hk. apply elem_of_app. left. by apply Hprev.
      * intros Hmain k Hk. apply elem_of_app. left. by apply Hall.
    + injection Hstep as <-.
      split_and!; system_simpl; try done.
      * intros k Hk. apply elem_of_app. left. by apply Hprev.
      * intros Hmain k Hk. apply elem_of_app. left. by apply Hall.
Qed.

Lemma restarts_ok_run (ls : list Main.Label) (sys : Main.System) :
  Main.run disk ls Main.init = Some sys → restarts_ok sys.
Proof.
  revert sys. induction ls as [|l ls IH] using rev_ind; intros sys Hrun.
  - injection Hrun as <-. apply restarts_ok_init.
  - rewrite run_snoc in Hrun.
    destruct (Main.run disk ls Main.init) as [sys0|]; [|done].
    simpl in Hrun. by eapply restarts_ok_step; [apply IH|].
Qed.

(** Signal handlers pile up.  At every moment of every run there is one
    handler for each supervisor [runServer] has created, the i-th
    installed for the i-th supervisor: no restart removes the handler of
    the supervisor it replaces. *)
Theorem every_supervisor_keeps_its_signal_handler
    (ls : list Main.Label) (sys : Main.System) :
  Main.run disk ls Main.init = Some sys →
  length (Main.handlers sys) = length (Main.supervisors sys) ∧
  ∀ i, i < length (Main.supervisors sys) →
       ∃ h, Main.handlers sys !! i = Some h ∧ Main.handler_s h = i.
Proof.
  intros Hrun. destruct (restarts_ok_run ls sys Hrun) as (Hlen & Hnth & _).
  split; [done|]. intros i Hi.
  destruct (lookup_lt_is_Some_2 (Main.handlers sys) i) as [h Hh]; [lia|].
  exists h. split; [done|]. by apply Hnth.
Qed.

(** A restart stops the old processes first.  At every moment of every
    run, [StopAllProcesses] has been called on the manager of every
    supervisor that is no longer the one in service: [WaitForExit] calls
    it before [runServer] creates the next supervisor. *)
Theorem restart_stops_the_processes_of_the_replaced_supervisor
    (ls : list Main.Label) (sys : Main.System) (k : nat) :
  Main.run disk ls Main.init = Some sys →
  k < Main.current sys →
  Main.EvStopAllProcesses k ∈ Main.events sys.
Proof.
  intros Hrun Hk. destruct (restarts_ok_run ls sys Hrun) as (_ & _ & Hprev & _).
  apply Hprev. unfold Main.current in Hk. lia.
Qed.

End RestartFacts.

(** ** How the program ends on a signal *)

Section SignalExit.
Context `{config.ConfigPkg, process.ProcessPkg, signals.SignalsPkg}.
Variable disk : string → config.ConfigFile.

(** The step that ends the program with the code -1 is the last
    statement of a signal handler. *)
Lemma exit_step (l : Main.Label) (before sys : Main.System) :
  Main.step disk l before = Some sys →
  Main.exited sys = Some (-1)%Z →
  ∃ i h,
    l = Main.HandlerStep i ∧
    Main.handlers before !! i = Some h ∧
    Main.pc h = Main.AtExit ∧
    Main.exited before = None ∧
    Main.supervisors sys = Main.supervisors before ∧
    Main.events sys = Main.events before ++ [Main.EvExit (-1)].
Proof.
  intros Hstep Hexit. unfold Main.step in Hstep.
  destruct (Main.exited before) as [|] eqn:Hexited; [done|].
  destruct l as [configFile|sig| |i].
  - unfold Main.main_step in Hstep. destruct (Main.main before).
    + destruct (Reload _ _) as [[s [[[a c] r] [sErr|]]]|code] eqn:HR;
        injection Hstep as <-; simpl in Hexit; try done.
      apply Reload_exit_code in HR as ->. done.
    + destruct (Main.supervisors before !! _) as [s|]; [|done].
      simpl in Hstep. destruct (IsRestarting s); injection Hstep as <-;
        simpl in Hexit; congruence.
  - case_decide; [|done]. by injection Hstep as <-.
  - destruct (Main.main before); [done|].
    destruct (Main.supervisors before !! _) as [s|]; [|done].
    by injection Hstep as <-.
  - destruct (Main.handlers before !! i) as [h|] eqn:Hi; [|done].
    simpl in Hstep. unfold Main.handler_step in Hstep.
    destruct (Main.pc h) eqn:Hpc.
    + destruct (Main.sigs h); [|done]. injection Hstep as <-.
      simpl in Hexit. congruence.
    + destruct (Main.supervisors before !! Main.handler_s h); [|done].
      injection Hstep as <-. simpl in Hexit. congruence.
    + injection Hstep as <-. by exists i, h.
Qed.

(** A program that has ended with the code of the signal handlers, -1,
    has ended by the last statement of one of them, and nothing ran
    after it.  That handler, the i-th installed, was installed for the
    i-th supervisor, and before the exit [StopAllProcesses] was called
    on the manager of that supervisor.  When the program never
    restarted, that supervisor is the one in service. *)
Theorem signal_exit_follows_a_stop_of_the_handlers_manager
    (ls : list Main.Label) (sys : Main.System) :
  Main.run disk ls Main.init = Some sys →
  Main.exited sys = Some (-1)%Z →
  ∃ ls' i before h,
    ls = ls' ++ [Main.HandlerStep i] ∧
    Main.run disk ls' Main.init = Some before ∧
    Main.exited before = None ∧
    Main.handlers before !! i = Some h ∧
    Main.pc h = Main.AtExit ∧
    Main.handler_s h = i ∧
    i < length (Main.supervisors sys) ∧
    Main.EvStopAllProcesses i ∈ Main.events before ∧
    Main.events sys = Main.events before ++ [Main.EvExit (-1)] ∧
    (length (Main.supervisors sys) = 1 → i = Main.current sys).
Proof.
  intros Hrun Hexit.
  destruct ls as [|l ls' _] using rev_ind; [by injection Hrun as <-|].
  rewrite run_snoc in Hrun.
  destruct (Main.run disk ls' Main.init) as [before|] eqn:Hbefore; [|done].
  simpl in Hrun.
  destruct (exit_step l before sys Hrun Hexit)
    as (i & h & -> & Hi & Hpc & Hnone & Hsups & Hevents).
  destruct (handlers_ok_run disk ls' before Hbefore) as [Hh _].
  destruct (restarts_ok_run disk ls' before Hbefore) as (_ & Hnth & _).
  destruct (Hh i h Hi) as [Hlt Hstop]. pose proof (Hnth i h Hi) as Hs.
  rewrite Hs in *. rewrite Hsups.
  exists ls', i, before, h. split_and!; try done; [by apply Hstop|].
  intros Hone. unfold Main.current. rewrite Hsups. lia.
Qed.

End SignalExit.

(** ** The configuration file *)

Section FindConf.
Variable Stat : string → bool.
Variable Abs : string → string + error.

Lemma firstConf_first_existing (files : list string) :
  match Env.firstConf Stat Abs files with
  | (found, None) =>
      ∃ before file after,
        files = before ++ file :: after ∧
        Forall (λ f, Stat f = false) before ∧
        Stat file = true ∧
        found = match Abs file with inl absFile => absFile | inr _ => file end
  | (found, Some _) =>
      found = EmptyString ∧ Forall (λ f, Stat f = false) files
  end.
Proof.
  induction files as [|file files IH]; cbn [Env.firstConf]; [done|].
  destruct (Stat file) eqn:Hfile.
  - destruct (Abs file) as [absFile|e] eqn:Habs;
      exists [], file, files; rewrite Habs; done.
  - destruct (Env.firstConf Stat Abs files) as [found [e|]].
    + destruct IH as [-> Hall]. split; [done|]. by constructor.
    + destruct IH as (before & f & after & -> & Hbefore & Hf & ->).
      exists (file :: before), f, after. split_and!; try done. by constructor.
Qed.

(** [findSupervisordConf] answers with the first candidate that exists,
    in the order: the configured file, ./supervisord.conf,
    ./etc/supervisord.conf, /etc/supervisord.conf,
    /etc/supervisor/supervisord.conf, ../etc/supervisord.conf,
    ../supervisord.conf; as an absolute path when the path can be made
    absolute, as it stands otherwise.  It fails, with the empty string,
    exactly when none of the seven exists; [runServer], which drops the
    error, then goes on with the configured path as it is, empty when
    none was given. *)
Theorem findSupervisordConf_first_existing_candidate (Configuration : string) :
  match Env.findSupervisordConf Stat Abs Configuration with
  | (found, None) =>
      ∃ before file after,
        Env.possibleSupervisordConf Configuration = before ++ file :: after ∧
        Forall (λ f, Stat f = false) before ∧
        Stat file = true ∧
        found = match Abs file with inl absFile => absFile | inr _ => file end
  | (found, Some _) =>
      found = EmptyString ∧
      Forall (λ f, Stat f = false) (Env.possibleSupervisordConf Configuration) ∧
      Env.runServer_Configuration Stat Abs Configuration = Configuration
  end.
Proof.
  pose proof (firstConf_first_existing
                (Env.possibleSupervisordConf Configuration)) as Hf.
  unfold Env.runServer_Configuration, Env.findSupervisordConf.
  destruct (Env.firstConf Stat Abs (Env.possibleSupervisordConf Configuration))
    as [found [e|]]; [|done].
  destruct Hf as [-> Hnone]. split_and!; [done..|].
  case_bool_decide as Hlen; [|done].
  destruct Configuration; [done|]. simpl in Hlen. lia.
Qed.

End FindConf.

(** ** The environment file *)

Lemma string_app_cons (a : ascii) (s x : string) :
  String a s +:+ x = String a (s +:+ x).
Proof. reflexivity. Qed.

Lemma string_app_empty_l (x : string) : EmptyString +:+ x = x.
Proof. reflexivity. Qed.

Lemma string_app_empty_r (x : string) : x +:+ EmptyString = x.
Proof. induction x as [|a x IH]; [done|]. by rewrite string_app_cons, IH. Qed.

Lemma string_app_assoc (a b c : string) : (a +:+ b) +:+ c = a +:+ b +:+ c.
Proof.
  induction a as [|x a IH]; [done|]. by rewrite !string_app_cons, IH.
Qed.

Lemma string_length_app (a b : string) :
  String.length (a +:+ b) = String.length a + String.length b.
Proof.
  induction a as [|x a IH]; [done|].
  rewrite string_app_cons. simpl. by rewrite IH.
Qed.

Lemma asciiSpace_ascii (c : ascii) :
  Env.asciiSpace c = true → Env.RuneSelf c = false.
Proof.
  unfold Env.asciiSpace. intros Hc%bool_decide_eq_true.
  repeat (apply elem_of_cons in Hc as [->|Hc]; [by vm_compute|]).
  by apply elem_of_nil in Hc.
Qed.

Lemma scanLeft_spaces (w x : string) :
  isSpaces w → Env.scanLeft (w +:+ x) = Env.scanLeft x.
Proof.
  induction w as [|c w IH]; [done|]. intros [Hc Hw].
  rewrite string_app_cons. cbn [Env.scanLeft].
  rewrite (asciiSpace_ascii _ Hc), Hc. auto.
Qed.

Lemma scanLeft_plain (c : ascii) (s : string) :
  plain c → Env.scanLeft (String c s) = Env.Found (String c s).
Proof. intros [Ha Hs]. cbn [Env.scanLeft]. by rewrite Ha, Hs. Qed.

Lemma scanRight_spaces (w : string) :
  isSpaces w → Env.scanRight w = Env.Found EmptyString.
Proof.
  induction w as [|c w IH]; [done|]. intros [Hc Hw].
  cbn [Env.scanRight]. rewrite (IH Hw), (asciiSpace_ascii _ Hc), Hc. done.
Qed.

Lemma scanRight_app_spaces (s w : string) :
  isSpaces w → Env.scanRight (s +:+ w) = Env.scanRight s.
Proof.
  intros Hw. induction s as [|c s IH].
  - rewrite string_app_empty_l. by apply scanRight_spaces.
  - rewrite string_app_cons. cbn [Env.scanRight]. by rewrite IH.
Qed.

Lemma scanRight_last_plain (s : string) (c : ascii) :
  last_byte s = Some c → plain c → Env.scanRight s = Env.Found s.
Proof.
  intros Hlast [Ha Hs]. induction s as [|a s IH]; [done|].
  destruct s as [|b s].
  - simpl in Hlast. simplify_eq. cbn [Env.scanRight]. by rewrite Ha, Hs.
  - change (last_byte (String b s) = Some c) in Hlast.
    cbn [Env.scanRight] in *. rewrite (IH Hlast). done.
Qed.

Lemma last_byte_app (a b : string) :
  b ≠ EmptyString → last_byte (a +:+ b) = last_byte b.
Proof.
  intros Hb. induction a as [|x a IH]; [done|].
  rewrite string_app_cons. cbn [last_byte]. rewrite IH.
  destruct (a +:+ b) eqn:Hab; [|done].
  destruct a, b; done.
Qed.

Lemma tight_nonempty (s : string) : tight s → 0 < String.length s.
Proof. intros [(c & Hc & _) _]. destruct s; [done|]. simpl. lia. Qed.

Lemma tight_app (a x b : string) : tight a → tight b → tight (a +:+ x +:+ b).
Proof.
  intros [(c & Hc & Hpc) _] Hb. pose proof (tight_nonempty _ Hb) as Hlen.
  destruct Hb as [_ (d & Hd & Hpd)]. split.
  - exists c. split; [|done]. by destruct a.
  - exists d. split; [|done]. rewrite <- string_app_assoc.
    rewrite last_byte_app; [done|]. intros ->. simpl in Hlen. lia.
Qed.

Section Trim.
Variable TrimFunc TrimRightFunc : string → string.

Lemma TrimSpace_padded (w1 t w2 : string) :
  isSpaces w1 → isSpaces w2 → tight t →
  Env.TrimSpace TrimFunc TrimRightFunc (w1 +:+ t +:+ w2) = t.
Proof.
  intros Hw1 Hw2 [(c & Hc & Hpc) (d & Hd & Hpd)]. unfold Env.TrimSpace.
  rewrite scanLeft_spaces by done.
  destruct t as [|c' t]; [done|]. simpl in Hc. simplify_eq.
  rewrite string_app_cons, scanLeft_plain by done.
  rewrite <- string_app_cons, scanRight_app_spaces by done.
  by rewrite (scanRight_last_plain _ d).
Qed.

Lemma TrimSpace_tight (t : string) :
  tight t → Env.TrimSpace TrimFunc TrimRightFunc t = t.
Proof.
  intros Ht.
  rewrite <- (TrimSpace_padded EmptyString t EmptyString) at 2 by done.
  by rewrite string_app_empty_l, string_app_empty_r.
Qed.

End Trim.

Lemma without_cons (c a : ascii) (s : string) :
  without c (String a s) ↔ Ascii.eqb a c = false ∧ without c s.
Proof.
  unfold without. cbn [Env.Index].
  destruct (Ascii.eqb a c); [split; [done|by intros [? _]]|].
  destruct (Env.Index s c); split; try done. by intros [_ ?].
Qed.

Lemma without_app (c : ascii) (a b : string) :
  without c (a +:+ b) ↔ without c a ∧ without c b.
Proof.
  induction a as [|x a IH].
  { rewrite string_app_empty_l. split; [by split|by intros [_ ?]]. }
  rewrite string_app_cons, !without_cons, IH. tauto.
Qed.

Lemma without_spaces (c : ascii) (w : string) :
  Env.asciiSpace c = false → isSpaces w → without c w.
Proof.
  intros Hc. induction w as [|a w IH]; [done|]. intros [Ha Hw].
  apply without_cons. split; [|auto].
  destruct (Ascii.eqb_spec a c) as [->|]; congruence.
Qed.

Lemma Index_app_found (a b : string) (c : ascii) :
  without c a → Env.Index (a +:+ String c b) c = Some (String.length a).
Proof.
  induction a as [|x a IH].
  - intros _. rewrite string_app_empty_l. cbn [Env.Index].
    by rewrite Ascii.eqb_refl.
  - intros [Hx Ha]%without_cons. rewrite string_app_cons. cbn [Env.Index].
    by rewrite Hx, (IH Ha).
Qed.

Lemma string_take_app (a b : string) : Env.take (String.length a) (a +:+ b) = a.
Proof.
  induction a as [|x a IH]; [by destruct b|].
  rewrite string_app_cons. simpl. by rewrite IH.
Qed.

Lemma string_drop_app (a b : string) : Env.drop (String.length a) (a +:+ b) = b.
Proof.
  induction a as [|x a IH]; [by destruct b|]. by rewrite string_app_cons.
Qed.

Lemma string_prefix_app (p x : string) : String.prefix p (p +:+ x) = true.
Proof.
  induction p as [|a p IH]; [by destruct x|].
  rewrite string_app_cons. simpl. by destruct (ascii_dec a a).
Qed.

Lemma string_prefix_app_false (p k x : string) :
  String.prefix p k = false →
  (∀ c, String.get 0 x = Some c → without c p) →
  String.prefix p (k +:+ x) = false.
Proof.
  intros Hk Hx. revert k Hk. induction p as [|a p IH]; intros k Hk.
  - by destruct k.
  - destruct k as [|b k].
    + rewrite string_app_empty_l. destruct x as [|c x]; [done|]. simpl.
      destruct (ascii_dec a c) as [->|]; [|done].
      specialize (Hx c eq_refl). apply without_cons in Hx as [Hx _].
      by rewrite Ascii.eqb_refl in Hx.
    + rewrite string_app_cons. simpl in *. destruct (ascii_dec a b); [|done].
      apply IH; [|done]. intros c Hc.
      by apply (Hx c) in Hc as [_ ?]%without_cons.
Qed.

Section Parse.
Variable TrimFunc TrimRightFunc : string → string.
Variables k v w2 w3 : string.
Hypothesis Hk : tight k.
Hypothesis Hv : tight v.
Hypothesis Hkeq : without "="%char k.
Hypothesis Hw2 : isSpaces w2.
Hypothesis Hw3 : isSpaces w3.

Lemma assignment_tight : tight (assignment k w2 w3 v).
Proof.
  unfold assignment.
  rewrite <- (string_app_assoc w2), <- (string_app_assoc (w2 +:+ "=")).
  by apply tight_app.
Qed.

Lemma assignment_Index :
  Env.Index (assignment k w2 w3 v) "="%char = Some (String.length (k +:+ w2)).
Proof.
  unfold assignment. rewrite <- string_app_assoc.
  change ("=" +:+ w3 +:+ v) with (String "="%char (w3 +:+ v)).
  apply Index_app_found, without_app. split; [done|].
  by apply without_spaces.
Qed.

Lemma assignment_key :
  Env.TrimSpace TrimFunc TrimRightFunc
    (Env.take (String.length (k +:+ w2)) (assignment k w2 w3 v)) = k.
Proof.
  unfold assignment. rewrite <- string_app_assoc, string_take_app.
  rewrite <- (string_app_empty_l (k +:+ w2)). by apply TrimSpace_padded.
Qed.

Lemma assignment_value :
  Env.TrimSpace TrimFunc TrimRightFunc
    (Env.drop (String.length (k +:+ w2) + 1) (assignment k w2 w3 v)) = v.
Proof.
  unfold assignment. rewrite <- string_app_assoc.
  change ("=" +:+ w3 +:+ v) with (String "="%char (w3 +:+ v)).
  replace (String.length (k +:+ w2) + 1)
    with (String.length ((k +:+ w2) +:+ String "="%char EmptyString))
    by (rewrite string_length_app; done).
  change (String "="%char (w3 +:+ v))
    with (String "="%char EmptyString +:+ w3 +:+ v).
  rewrite <- (string_app_assoc (k +:+ w2)), string_drop_app.
  rewrite <- (string_app_empty_r v) at 1. by apply TrimSpace_padded.
Qed.

Lemma assignment_parsed :
  match Env.Index (assignment k w2 w3 v) "="%char with
  | None => None
  | Some pos =>
      let k' := Env.TrimSpace TrimFunc TrimRightFunc
                  (Env.take pos (assignment k w2 w3 v)) in
      let v' := Env.TrimSpace TrimFunc TrimRightFunc
                  (Env.drop (pos + 1) (assignment k w2 w3 v)) in
      if bool_decide (0 < String.length k') &&
         bool_decide (0 < String.length v')
      then Some (k', v')
      else None
  end = Some (k, v).
Proof.
  rewrite assignment_Index. cbv zeta.
  rewrite assignment_key, assignment_value.
  rewrite !bool_decide_eq_true_2 by by apply tight_nonempty. done.
Qed.

End Parse.

Lemma without_export (c : ascii) :
  Env.asciiSpace c = true ∨ c = "="%char → without c "export".
Proof.
  intros [Hc%bool_decide_eq_true| ->]; [|done].
  repeat (apply elem_of_cons in Hc as [->|Hc]; [done|]).
  by apply elem_of_nil in Hc.
Qed.

Lemma Setenv_valid (k v : string) (env : gmap string string) :
  valid_variable k v → Env.Setenv k v env = (<[k := v]> env, None).
Proof.
  intros (Hk & _ & Heq & Hnul & Hvnul). unfold Env.Setenv, without in *.
  rewrite bool_decide_eq_false_2 by by destruct k.
  rewrite bool_decide_eq_false_2.
  2: { rewrite Heq, Hnul. by intros [[? ?]|[? ?]]. }
  rewrite bool_decide_eq_false_2; [done|].
  rewrite Hvnul. by intros [? ?].
Qed.

Section EnvLines.
Variable TrimFunc_IsSpace TrimRightFunc_IsSpace : string → string.

(** A line [name = value] sets the variable, whatever the ASCII spaces
    around the name, the sign and the value, the line feed among them:
    provided the name and the value begin and end with ASCII bytes that
    are no spaces and hold no NUL byte, and the name holds no '=', does
    not begin with '#' and does not begin with [export]. *)
Theorem setLine_sets_a_padded_assignment
    (w1 k w2 w3 v w4 : string) (env : gmap string string) :
  isSpaces w1 → isSpaces w2 → isSpaces w3 → isSpaces w4 →
  tight k → tight v → valid_variable k v →
  String.get 0 k ≠ Some "#"%char → String.prefix "export" k = false →
  Env.setLine TrimFunc_IsSpace TrimRightFunc_IsSpace env
    (w1 +:+ assignment k w2 w3 v +:+ w4) = <[k := v]> env.
Proof.
  intros Hw1 Hw2 Hw3 Hw4 Hk Hv Hvalid Hcomment Hexport.
  pose proof Hvalid as (_ & _ & Heq & _).
  unfold Env.setLine, Env.parseLine.
  rewrite TrimSpace_padded by (try done; by apply assignment_tight).
  rewrite (bool_decide_eq_false_2 (String.get 0 _ = _)), andb_false_r.
  2: { unfold assignment. destruct Hk as [(c & Hc & _) _].
       destruct k; [done|]. by rewrite string_app_cons. }
  replace (String.prefix "export" (assignment k w2 w3 v)) with false.
  2: { symmetry. apply string_prefix_app_false; [done|]. intros c Hc.
       apply without_export. destruct w2 as [|a w2].
       - rewrite string_app_empty_l in Hc. simpl in Hc. right. congruence.
       - rewrite string_app_cons in Hc. simpl in Hc. destruct Hw2 as [Ha _].
         left. congruence. }
  cbn [andb]. rewrite assignment_parsed by done.
  by rewrite Setenv_valid.
Qed.

(** A line [export name = value], with at least one ASCII space after
    [export], sets the variable: here the name may begin with '#' or
    with [export], the check for a comment and the removal of [export]
    being done once, before. *)
Theorem setLine_sets_an_exported_assignment
    (w1 w0 k w2 w3 v w4 : string) (env : gmap string string) :
  isSpaces w1 → isSpaces w0 → w0 ≠ EmptyString →
  isSpaces w2 → isSpaces w3 → isSpaces w4 →
  tight k → tight v → valid_variable k v →
  Env.setLine TrimFunc_IsSpace TrimRightFunc_IsSpace env
    (w1 +:+ ("export" +:+ w0 +:+ assignment k w2 w3 v) +:+ w4) = <[k := v]> env.
Proof.
  intros Hw1 Hw0 Hne Hw2 Hw3 Hw4 Hk Hv Hvalid.
  pose proof Hvalid as (_ & _ & Heq & _).
  pose proof (assignment_tight k v w2 w3 Hk Hv) as Htight.
  unfold Env.setLine, Env.parseLine.
  rewrite TrimSpace_padded; [|done..|].
  2: { apply tight_app; [|done].
       split; [exists "e"%char|exists "t"%char]; by vm_compute. }
  destruct w0 as [|c0 w0]; [done|]. destruct Hw0 as [Hc0 Hw0].
  rewrite !string_app_cons, string_app_empty_l.
  rewrite (bool_decide_eq_false_2 (String.get 0 _ = _)), andb_false_r by done.
  simpl. unfold Env.IsSpace. rewrite Hc0. cbn [orb].
  replace (String c0 (w0 +:+ assignment k w2 w3 v))
    with (String c0 w0 +:+ assignment k w2 w3 v +:+ EmptyString)
    by (by rewrite string_app_empty_r).
  rewrite TrimSpace_padded by done.
  rewrite assignment_parsed by done.
  by rewrite Setenv_valid.
Qed.

End EnvLines.

Lemma lines_cons (a : ascii) (s : string) :
  (lines (String a s)).1 =
  if Ascii.eqb a "010"%char then LF :: (lines s).1
  else match (lines s).1 with
       | l :: ls => String a l :: ls
       | [] => []
       end.
Proof.
  cbn [lines]. destruct (lines s) as [ls rest].
  destruct (Ascii.eqb_spec a "010"%char) as [->|_]; [done|]. by destruct ls.
Qed.

Lemma ReadString_lines (s : string) :
  match Env.ReadString "010"%char s with
  | (line, rest, true) =>
      (lines s).1 = line :: (lines rest).1 ∧
      String.length rest < String.length s
  | (_, _, false) => (lines s).1 = []
  end.
Proof.
  induction s as [|a s IH]; [done|].
  rewrite lines_cons. cbn [Env.ReadString].
  destruct (Ascii.eqb a "010"%char) eqn:Ha.
  - apply Ascii.eqb_eq in Ha as ->. split; [done|]. simpl. lia.
  - destruct (Env.ReadString "010"%char s) as [[line rest] [|]].
    + destruct IH as [-> Hlen]. split; [done|]. simpl. lia.
    + by rewrite IH.
Qed.

Lemma lines_without (tail : string) :
  without "010"%char tail → (lines tail).1 = [].
Proof.
  induction tail as [|a tail IH]; [done|].
  intros [Ha Htail]%without_cons. by rewrite lines_cons, Ha, IH.
Qed.

Lemma lines_app_without (content tail : string) :
  without "010"%char tail → (lines (content +:+ tail)).1 = (lines content).1.
Proof.
  intros Htail. induction content as [|a content IH].
  - rewrite string_app_empty_l. by apply lines_without.
  - by rewrite string_app_cons, !lines_cons, IH.
Qed.

Lemma lines_app (content1 content2 : string) :
  ends_lines content1 →
  (lines (content1 +:+ content2)).1 = (lines content1).1 ++ (lines content2).1.
Proof.
  intros [->|[content ->]]; [done|].
  induction content as [|a content IH].
  - rewrite string_app_empty_l. unfold LF.
    by rewrite string_app_cons, lines_cons.
  - rewrite !string_app_cons, !lines_cons, IH.
    destruct (Ascii.eqb a "010"%char); [done|].
    destruct (lines (content +:+ LF)).1 as [|l ls] eqn:Hl; [|done].
    exfalso. clear IH. induction content as [|b content IH].
    + done.
    + rewrite string_app_cons, lines_cons in Hl.
      destruct (Ascii.eqb b "010"%char); [done|].
      destruct (lines (content +:+ LF)).1; [by apply IH|done].
Qed.

Section EnvFile.
Variable TrimFunc_IsSpace TrimRightFunc_IsSpace : string → string.

Lemma readLoop_lines (fuel : nat) (rest : string) (env : gmap string string) :
  String.length rest < fuel →
  Env.readLoop TrimFunc_IsSpace TrimRightFunc_IsSpace fuel rest env =
  foldl (Env.setLine TrimFunc_IsSpace TrimRightFunc_IsSpace) env (lines rest).1.
Proof.
  revert rest env. induction fuel as [|fuel IH]; intros rest env Hlen; [lia|].
  cbn [Env.readLoop]. pose proof (ReadString_lines rest) as Hread.
  destruct (Env.ReadString "010"%char rest) as [[line rest'] [|]].
  - destruct Hread as [-> Hlen']. rewrite IH by lia. done.
  - by rewrite Hread.
Qed.

Lemma loadEnvFile_lines (Open : string → option string)
    (EnvFile : string) (env : gmap string string) :
  Env.loadEnvFile TrimFunc_IsSpace TrimRightFunc_IsSpace Open EnvFile env =
  if bool_decide (String.length EnvFile ≤ 0) then env
  else match Open EnvFile with
       | None => env
       | Some content =>
           foldl (Env.setLine TrimFunc_IsSpace TrimRightFunc_IsSpace) env
                 (lines content).1
       end.
Proof.
  unfold Env.loadEnvFile. case_bool_decide; [done|].
  destruct (Open EnvFile) as [content|]; [|done].
  apply readLoop_lines. lia.
Qed.

Lemma parseLine_Some (line k v : string) :
  Env.parseLine TrimFunc_IsSpace TrimRightFunc_IsSpace line = Some (k, v) →
  k ≠ EmptyString ∧ v ≠ EmptyString.
Proof.
  unfold Env.parseLine.
  destruct (_ && _); [done|].
  destruct (Env.Index _ _) as [pos|]; [|done]. cbv zeta.
  destruct (bool_decide (0 < String.length _)) eqn:Hk; [|done].
  destruct (bool_decide (0 < String.length _)) eqn:Hv in |- *; [|done].
  apply bool_decide_eq_true in Hk, Hv. cbn [andb]. intros [= <- <-].
  assert (∀ s, 0 < String.length s → s ≠ EmptyString) as Hlen
    by (intros s Hs ->; simpl in Hs; lia).
  split; apply Hlen; [exact Hk|exact Hv].
Qed.

Lemma setLine_lookup (env : gmap string string) (line k : string) :
  Env.setLine TrimFunc_IsSpace TrimRightFunc_IsSpace env line !! k = env !! k ∨
  ∃ v,
    Env.setLine TrimFunc_IsSpace TrimRightFunc_IsSpace env line !! k = Some v ∧
    valid_variable k v.
Proof.
  unfold Env.setLine.
  destruct (Env.parseLine _ _ line) as [[k' v']|] eqn:Hparse; [|by left].
  apply parseLine_Some in Hparse as [Hk' Hv'].
  unfold Env.Setenv. repeat case_bool_decide; try by left. cbn [fst].
  destruct (decide (k' = k)) as [->|Hne].
  - right. exists v'. rewrite lookup_insert_eq. split; [done|].
    unfold valid_variable, without.
    split_and!; try done.
    + destruct (Env.Index k "="%char) eqn:E; [|done]. naive_solver.
    + destruct (Env.Index k "000"%char) eqn:E; [|done]. naive_solver.
    + destruct (Env.Index v' "000"%char) eqn:E; [|done]. naive_solver.
  - left. by rewrite lookup_insert_ne.
Qed.

Lemma foldl_setLine_lookup (ls : list string) (env : gmap string string)
    (k : string) :
  foldl (Env.setLine TrimFunc_IsSpace TrimRightFunc_IsSpace) env ls !! k
    = env !! k ∨
  ∃ v,
    foldl (Env.setLine TrimFunc_IsSpace TrimRightFunc_IsSpace) env ls !! k
      = Some v ∧
    valid_variable k v.
Proof.
  revert env. induction ls as [|line ls IH]; intros env; [by left|].
  cbn [foldl].
  destruct (IH (Env.setLine TrimFunc_IsSpace TrimRightFunc_IsSpace env line))
    as [->|?]; [|by right].
  apply setLine_lookup.
Qed.

(** [loadEnvFile] unsets no variable and leaves every variable as it was
    or with a value it may have been given: a name that is not empty and
    has neither '=' nor a NUL byte, a value that is not empty and has no
    NUL byte.  This holds of every file, readable or not, and of every
    environment. *)
Theorem loadEnvFile_unsets_nothing_and_sets_valid_variables
    (Open : string → option string) (EnvFile : string)
    (env : gmap string string) (k : string) :
  Env.loadEnvFile TrimFunc_IsSpace TrimRightFunc_IsSpace Open EnvFile env !! k
    = env !! k ∨
  ∃ v,
    Env.loadEnvFile TrimFunc_IsSpace TrimRightFunc_IsSpace Open EnvFile env !! k
      = Some v ∧
    valid_variable k v.
Proof.
  rewrite loadEnvFile_lines. case_bool_decide; [by left|].
  destruct (Open EnvFile) as [content|]; [|by left].
  apply foldl_setLine_lookup.
Qed.

(** A file that is the concatenation of two, the first of which is empty
    or ends with a line feed, is loaded as the first and then the second
    are: the lines are read in order, each on the environment the
    earlier ones left. *)
Theorem loadEnvFile_of_a_concatenation
    (Open1 Open2 Open12 : string → option string) (EnvFile : string)
    (content1 content2 : string) (env : gmap string string) :
  ends_lines content1 →
  Open1 EnvFile = Some content1 →
  Open2 EnvFile = Some content2 →
  Open12 EnvFile = Some (content1 +:+ content2) →
  Env.loadEnvFile TrimFunc_IsSpace TrimRightFunc_IsSpace Open12 EnvFile env =
  Env.loadEnvFile TrimFunc_IsSpace TrimRightFunc_IsSpace Open2 EnvFile
    (Env.loadEnvFile TrimFunc_IsSpace TrimRightFunc_IsSpace Open1 EnvFile env).
Proof.
  intros Hends H1 H2 H12. rewrite !loadEnvFile_lines, H1, H2, H12.
  case_bool_decide; [done|]. by rewrite lines_app, foldl_app.
Qed.

(** What follows the last line feed of the file is not read as a line:
    a file and the same file with a last line that has no line feed
    leave the same environment. *)
Theorem loadEnvFile_ignores_an_unterminated_last_line
    (Open Open' : string → option string) (EnvFile : string)
    (content tail : string) (env : gmap string string) :
  without "010"%char tail →
  Open EnvFile = Some content →
  Open' EnvFile = Some (content +:+ tail) →
  Env.loadEnvFile TrimFunc_IsSpace TrimRightFunc_IsSpace Open' EnvFile env =
  Env.loadEnvFile TrimFunc_IsSpace TrimRightFunc_IsSpace Open EnvFile env.
Proof.
  intros Htail HO HO'. rewrite !loadEnvFile_lines, HO, HO'.
  by rewrite lines_app_without.
Qed.

End EnvFile.

(** ** More runs on concrete inputs *)

Module MoreExamples.
Import Platform Scenarios.

(** The reload of scenario S6: every call it makes is a start, or the
    stop of a, which the file no longer holds. *)
Lemma Reload_calls_witness :
  ∃ s' result made,
    Reload file6 s6 = Returned (s', result) ∧
    Manager.calls (procMgr s') = Manager.calls (procMgr s6) ++ made ∧
    Forall (reload_call (config.GetProgramNames (config s6))
                        (config.Load file6 (config s6)).1.2) made ∧
    ∀ n, n ∈ (config.Load file6 (config s6)).1.2 →
         filter is_stop (calls_on n (Manager.calls (procMgr s')))
         = filter is_stop (calls_on n (Manager.calls (procMgr s6))).
Proof.
  apply (Reload_starts_and_stops_removed_programs_only file6 s6).
  reflexivity.
Defined.

(** C3, counterexample.  Two reloads of scenario S6, where the file no
    longer holds a, that do not stop a.  Under the configuration package
    whose [Load] keeps nothing, a is RUNNING before the reload;
    [createPrograms] takes it out of the registry, the loop of [Reload]
    finds nothing to stop, and [Reload] returns having called nothing
    but starts.  Where the check of the required resources fails,
    [Reload] ends the program with code 1 and returns nothing. *)
Lemma Reload_leaves_a_removed_program_unstopped :
  let started :=
    (@StartProcess replacing_config platform_process s6_replacing
       {| StartProcessArgs_Name := "a"; StartProcessArgs_Wait := true |}
       false).1.1 in
  (process.GetState <$> Manager.procs (procMgr started) !! "a"
   = Some process.Running ∧
   "a" ∈ @config.GetProgramNames replacing_config (config started) ∧
   ("a" ∉ (@config.Load replacing_config file6 (config started)).1.2) ∧
   ∃ s' result,
     @Reload replacing_config platform_process file6 started
     = Returned (s', result) ∧
     Manager.procs (procMgr s') !! "a" = None ∧
     Manager.calls (procMgr s')
     = [Manager.CallStart "a" true; Manager.CallStart "b" true;
        Manager.CallStart "c" true] ∧
     last (calls_on "a" (Manager.calls (procMgr s')))
     ≠ Some (Manager.CallStop "a" false)) ∧
  ("a" ∈ @config.GetProgramNames lacking_config (config s6_lacking) ∧
   ("a" ∉ (@config.Load lacking_config file6 (config s6_lacking)).1.2) ∧
   is_Some (Manager.procs (procMgr s6_lacking) !! "a") ∧
   @Reload lacking_config platform_process file6 s6_lacking = Exit 1).
Proof.
  assert (∀ l : list string, l = ["b"; "c"] → "a" ∉ l) as Hnot.
  { intros l -> Hin.
    repeat (apply elem_of_cons in Hin as [Hin|Hin]; [discriminate|]).
    by apply elem_of_nil in Hin. }
  cbv zeta. split_and!.
  - reflexivity.
  - vm_compute. left.
  - apply Hnot. reflexivity.
  - eexists _, _. split; [vm_compute; reflexivity|].
    split_and!; [reflexivity|reflexivity|by vm_compute].
  - vm_compute. left.
  - apply Hnot. reflexivity.
  - vm_compute. by eexists.
  - reflexivity.
Qed.

(** SIGINT without a restart: the handler of the first supervisor, the
    one in service, stops its processes and ends the program. *)
Lemma signal_exit_follows_a_stop_witness :
  ∃ sys,
    Main.run disk signal_only Main.init = Some sys ∧
    ∃ ls' i before h,
      signal_only = ls' ++ [Main.HandlerStep i] ∧
      Main.run disk ls' Main.init = Some before ∧
      Main.exited before = None ∧
      Main.handlers before !! i = Some h ∧
      Main.pc h = Main.AtExit ∧
      Main.handler_s h = i ∧
      i < length (Main.supervisors sys) ∧
      Main.EvStopAllProcesses i ∈ Main.events before ∧
      Main.events sys = Main.events before ++ [Main.EvExit (-1)] ∧
      (length (Main.supervisors sys) = 1 → i = Main.current sys).
Proof.
  eexists. split; [vm_compute; reflexivity|].
  apply (signal_exit_follows_a_stop_of_the_handlers_manager disk signal_only);
    vm_compute; reflexivity.
Defined.

(** After a restart and a signal, two supervisors and two handlers. *)
Lemma every_supervisor_keeps_its_signal_handler_witness :
  ∃ sys,
    Main.run disk restart_then_signal Main.init = Some sys ∧
    length (Main.handlers sys) = length (Main.supervisors sys) ∧
    ∀ i, i < length (Main.supervisors sys) →
         ∃ h, Main.handlers sys !! i = Some h ∧ Main.handler_s h = i.
Proof.
  eexists. split; [vm_compute; reflexivity|].
  apply (every_supervisor_keeps_its_signal_handler disk restart_then_signal).
  vm_compute; reflexivity.
Defined.

(** After the restart the processes of the first supervisor were
    stopped. *)
Lemma restart_stops_the_replaced_supervisor_witness :
  ∃ sys,
    Main.run disk restart_then_signal Main.init = Some sys ∧
    Main.EvStopAllProcesses 0 ∈ Main.events sys.
Proof.
  eexists. split; [vm_compute; reflexivity|].
  apply (restart_stops_the_processes_of_the_replaced_supervisor
           disk restart_then_signal _ 0).
  - vm_compute; reflexivity.
  - vm_compute; lia.
Defined.

(** The line [  FOO = bar baz  ] with its line feed sets FOO to
    [bar baz]. *)
Lemma setLine_padded_assignment_witness :
  Env.setLine (λ s, s) (λ s, s) ∅
    ("  " +:+ assignment "FOO" " " " " "bar baz" +:+ "  " +:+ LF)
  = <["FOO" := "bar baz"]> ∅.
Proof.
  apply (setLine_sets_a_padded_assignment (λ s, s) (λ s, s)
           "  " "FOO" " " " " "bar baz" ("  " +:+ LF) ∅);
    try (vm_compute; tauto).
  - split; [exists "F"%char|exists "O"%char]; vm_compute; tauto.
  - split; [exists "b"%char|exists "z"%char]; vm_compute; tauto.
  - vm_compute. split_and!; done.
  - discriminate.
Defined.

(** The line [export #PATH=/bin] sets the variable #PATH. *)
Lemma setLine_exported_assignment_witness :
  Env.setLine (λ s, s) (λ s, s) ∅
    ("" +:+ ("export" +:+ " " +:+ assignment "#PATH" "" "" "/bin") +:+ LF)
  = <["#PATH" := "/bin"]> ∅.
Proof.
  apply (setLine_sets_an_exported_assignment (λ s, s) (λ s, s)
           "" " " "#PATH" "" "" "/bin" LF ∅);
    try (vm_compute; tauto).
  - discriminate.
  - split; [exists "#"%char|exists "H"%char]; vm_compute; tauto.
  - split; [exists "/"%char|exists "n"%char]; vm_compute; tauto.
  - vm_compute. split_and!; done.
Defined.

(** Two files of one line each, and the file of both lines. *)
Lemma loadEnvFile_of_a_concatenation_witness :
  Env.loadEnvFile (λ s, s) (λ s, s)
    (λ _, Some (("A=1" +:+ LF) +:+ ("B=2" +:+ LF))) ".env" ∅
  = Env.loadEnvFile (λ s, s) (λ s, s) (λ _, Some ("B=2" +:+ LF)) ".env"
      (Env.loadEnvFile (λ s, s) (λ s, s) (λ _, Some ("A=1" +:+ LF)) ".env" ∅).
Proof.
  apply (loadEnvFile_of_a_concatenation (λ s, s) (λ s, s)
           (λ _, Some ("A=1" +:+ LF)) (λ _, Some ("B=2" +:+ LF))
           (λ _, Some (("A=1" +:+ LF) +:+ ("B=2" +:+ LF)))
           ".env" ("A=1" +:+ LF) ("B=2" +:+ LF) ∅);
    try reflexivity.
  right. exists "A=1". reflexivity.
Defined.

(** The file [A=1], line feed, [B=2] without a line feed, leaves what
    the file [A=1], line feed, leaves: B is not set. *)
Lemma loadEnvFile_unterminated_last_line_witness :
  Env.loadEnvFile (λ s, s) (λ s, s)
    (λ _, Some (("A=1" +:+ LF) +:+ "B=2")) ".env" ∅
  = Env.loadEnvFile (λ s, s) (λ s, s) (λ _, Some ("A=1" +:+ LF)) ".env" ∅.
Proof.
  apply (loadEnvFile_ignores_an_unterminated_last_line (λ s, s) (λ s, s)
           (λ _, Some ("A=1" +:+ LF)) (λ _, Some (("A=1" +:+ LF) +:+ "B=2"))
           ".env" ("A=1" +:+ LF) "B=2" ∅);
    reflexivity.
Defined.

End MoreExamples.
